(** * run_ptb: a runner for PTB snippets

    A shallow embedding of [scripts/run_ptb.py] and of the parts of the
    Python standard library it calls, followed by the properties of the
    script that its specification states.  The library functions are
    embedded from CPython 3.11: [shlex.split], [shlex.quote] and
    [shlex.join] from [Lib/shlex.py], [Pattern.sub] for the one pattern of
    the script from the semantics of [re], and [subprocess.run] as far as
    its return code and its exceptions go.  [argparse] is not embedded: the
    script starts from the namespace that [parse_args] returns.

    Conventions.
    - A Python [str] is a [string]; a character is an [ascii], read as the
      code point of the same number (the Latin-1 block of Unicode).  The
      development therefore speaks about scripts, environment values and
      arguments whose code points are below 256.
    - A Python [dict] read by key ([os.environ]) is a [gmap string string].
    - An exception is a value of [exn]; code that can raise returns a [res].
    - Printing and spawning a child process are effects on an explicit
      record [io], threaded by the monad [M]. *)

From Stdlib Require Import ZArith Ascii String List Lia.
From stdpp Require Import base option gmap strings.
From Equations Require Import Equations.

Local Open Scope string_scope.
Local Open Scope list_scope.

(** ** Characters and strings *)

Module Chars.

Definition dquote : ascii := "034"%char.
Definition squote : ascii := "'"%char.
Definition backslash : ascii := "\"%char.
Definition hash : ascii := "#"%char.
Definition space : ascii := " "%char.
Definition tab : ascii := "009"%char.
Definition cr : ascii := "013"%char.
Definition lf : ascii := "010"%char.
Definition dollar : ascii := "$"%char.
Definition lbrace : ascii := "{"%char.
Definition rbrace : ascii := "}"%char.

(** [c in s] for a one-character [c]. *)
Fixpoint in_str (c : ascii) (s : string) : bool :=
  match s with
  | EmptyString => false
  | String d s' => Ascii.eqb c d || in_str c s'
  end.

(** [bool(s)] of a string: non-empty. *)
Definition truthy (s : string) : bool :=
  match s with EmptyString => false | String _ _ => true end.

(** [s + c]. *)
Definition snoc (s : string) (c : ascii) : string := s +:+ String c "".

Definition str_of_codes (l : list nat) : string :=
  fold_right (fun n s => String (ascii_of_nat n) s) "" l.

End Chars.
Import Chars.

(** Induction on the length of a string, for the loops that read more
    than one character in a round. *)
Lemma string_len_ind (P : string -> Prop) :
  (forall s, (forall s', String.length s' < String.length s -> P s') -> P s) ->
  forall s, P s.
Proof.
  intros H s. remember (String.length s) as n eqn:Hn.
  revert s Hn. induction n as [n IH] using lt_wf_ind.
  intros s ->. apply H. intros s' Hlt. eapply IH; eauto.
Qed.

Ltac split_if_in H :=
  match type of H with
  | context [if ?b then _ else _] => destruct b eqn:?
  end.

(** A value together with the equation that names it, for a definition
    whose termination depends on what a call returned. *)
Definition inspect {A : Type} (x : A) : {y : A | x = y} :=
  exist _ x eq_refl.

(** ** Exceptions and results *)

Inductive oserror :=
| FileNotFoundError
| PermissionError
| OtherOSError (errno : Z).

Inductive exn :=
| SystemExit (code : Z)
| ValueError (msg : string)
| TypeError
| OSError (e : oserror)
| UnicodeDecodeError
| CalledProcessError (returncode : Z) (cmd : list string).

Inductive res (A : Type) :=
| Ok (a : A)
| Raise (e : exn).
Arguments Ok {A} a.
Arguments Raise {A} e.

(** ** shlex: the lexer behind [shlex.split(s, comments=True)]

    [split] builds [shlex(s, posix=True)], sets [whitespace_split = True],
    keeps [commenters = '#'] and returns [list(lex)].  The attributes below
    are the ones [shlex.__init__] sets in that configuration;
    [punctuation_chars] is empty, so no test [nextchar in
    self.punctuation_chars] succeeds, the state ['c'] is never entered and
    the push-back queues stay empty; with [whitespace_split] set, the last
    [elif] of the states [' '] and ['a'] always applies. *)

Module Shlex.

(** [self.state]: [None], [' '], ['a'], a quote character, or the escape
    character. *)
Inductive lstate :=
| St_eof
| St_space
| St_word
| St_quote (q : ascii)
| St_escape (e : ascii).

Definition commenters : string := "#".
Definition wordchars : string :=
  "abcdfeghijklmnopqrstuvwxyzABCDEFGHIJKLMNOPQRSTUVWXYZ0123456789_"
  +:+ str_of_codes
        [223;224;225;226;227;228;229;230;231;232;233;234;235;236;237;238;
         239;240;241;242;243;244;245;246;248;249;250;251;252;253;254;255;
         192;193;194;195;196;197;198;199;200;201;202;203;204;205;206;207;
         208;209;210;211;212;213;214;216;217;218;219;220;221;222].
Definition whitespace : string := str_of_codes [32; 9; 13; 10].
Definition quotes : string := String squote (String dquote "").
Definition escape : string := String backslash "".
Definition escapedquotes : string := String dquote "".

(** [escapedstate in self.quotes], [self.state in self.escapedquotes] and
    [nextchar != escapedstate], for a state that holds a character. *)
Definition state_in (st : lstate) (s : string) : bool :=
  match st with
  | St_quote q => in_str q s
  | St_escape e => in_str e s
  | St_space => in_str space s
  | St_word => in_str "a"%char s
  | St_eof => false
  end.

Definition state_is (st : lstate) (c : ascii) : bool :=
  match st with
  | St_quote q => Ascii.eqb c q
  | St_escape e => Ascii.eqb c e
  | St_space => Ascii.eqb c space
  | St_word => Ascii.eqb c "a"%char
  | St_eof => false
  end.

(** [instream.readline()] on a [StringIO]: the line up to and including
    the next line feed, and the stream after it. *)
Fixpoint readline (s : string) : string * string :=
  match s with
  | EmptyString => ("", "")
  | String c s' =>
      if Ascii.eqb c lf then (String c "", s')
      else let '(l, r) := readline s' in (String c l, r)
  end.

Lemma readline_length s : String.length (snd (readline s)) <= String.length s.
Proof.
  induction s as [|c s IH]; simpl; [lia|].
  destruct (Ascii.eqb c lf); simpl; [lia|].
  destruct (readline s); simpl in *; lia.
Qed.

(** The lexer object: the input stream, [self.state] and [self.token]. *)
Record shlex := Lexer {
  instream : string;
  state : lstate;
  token : string
}.

(** What the [while True] loop of [read_token] leaves when it breaks:
    the lexer and the local [quoted]. *)
Definition at_break : Type := shlex * bool.

(** The loop of [read_token].  Each round reads [nextchar] from the
    stream ([""] stands for the end of the input) and dispatches on
    [self.state]; [quoted] and [escapedstate] are the locals of
    [read_token]. *)
Equations? read_loop (st : lstate) (tok : string) (quoted : bool)
    (escapedstate : lstate) (s : string) : res at_break
    by wf (String.length s) lt :=
  read_loop st tok quoted escapedstate EmptyString :=
    match st with
    | St_eof => Ok (Lexer "" St_eof "", quoted)
    | St_space => Ok (Lexer "" St_eof tok, quoted)
    | St_quote _ => Raise (ValueError "No closing quotation")
    | St_escape _ => Raise (ValueError "No escaped character")
    | St_word => Ok (Lexer "" St_eof tok, quoted)
    end;
  read_loop st tok quoted escapedstate (String nextchar rest) :=
    match st with
    | St_eof => Ok (Lexer rest St_eof "", quoted)
    | St_space =>
        if in_str nextchar whitespace then
          if truthy tok || quoted then Ok (Lexer rest St_space tok, quoted)
          else read_loop St_space tok quoted escapedstate rest
        else if in_str nextchar commenters then
          read_loop St_space tok quoted escapedstate (snd (readline rest))
        else if in_str nextchar escape then
          read_loop (St_escape nextchar) tok quoted St_word rest
        else if in_str nextchar wordchars then
          read_loop St_word (String nextchar "") quoted escapedstate rest
        else if in_str nextchar quotes then
          read_loop (St_quote nextchar) tok quoted escapedstate rest
        else (* whitespace_split *)
          read_loop St_word (String nextchar "") quoted escapedstate rest
    | St_quote q =>
        if Ascii.eqb nextchar q then
          read_loop St_word tok true escapedstate rest
        else if in_str nextchar escape && in_str q escapedquotes then
          read_loop (St_escape nextchar) tok true (St_quote q) rest
        else
          read_loop (St_quote q) (snoc tok nextchar) true escapedstate rest
    | St_escape e =>
        let tok' :=
          if state_in escapedstate quotes
             && negb (Ascii.eqb nextchar e)
             && negb (state_is escapedstate nextchar)
          then snoc tok e else tok in
        read_loop escapedstate (snoc tok' nextchar) quoted escapedstate rest
    | St_word =>
        if in_str nextchar whitespace then
          if truthy tok || quoted then Ok (Lexer rest St_space tok, quoted)
          else read_loop St_space tok quoted escapedstate rest
        else if in_str nextchar commenters then
          if truthy tok || quoted
          then Ok (Lexer (snd (readline rest)) St_space tok, quoted)
          else read_loop St_space tok quoted escapedstate (snd (readline rest))
        else if in_str nextchar quotes then
          read_loop (St_quote nextchar) tok quoted escapedstate rest
        else if in_str nextchar escape then
          read_loop (St_escape nextchar) tok quoted St_word rest
        else (* whitespace_split and nextchar not in punctuation_chars *)
          read_loop St_word (snoc tok nextchar) quoted escapedstate rest
    end.
Proof.
  all: try (simpl; lia).
  all: pose proof (readline_length rest); simpl; lia.
Qed.

(** [read_token]: run the loop from the lexer's state with
    [quoted = False] and [escapedstate = ' '], then reset [self.token];
    in POSIX mode an unquoted empty result is [None]. *)
Definition read_token (self : shlex) : res (option string * shlex) :=
  match read_loop (state self) (token self) false St_space (instream self) with
  | Raise e => Raise e
  | Ok (self', quoted) =>
      let result := token self' in
      let self'' := Lexer (instream self') (state self') "" in
      if negb quoted && negb (truthy result)
      then Ok (None, self'')
      else Ok (Some result, self'')
  end.

(** [get_token]: nothing is ever pushed back and no source is stacked, so
    it returns what [read_token] returns ([self.eof] is [None]). *)
Definition get_token (self : shlex) : res (option string * shlex) :=
  read_token self.

(** What is left to do: the input still to read, and the end-of-file
    round. *)
Definition todo (self : shlex) : nat :=
  String.length (instream self)
  + match state self with St_eof => 0 | _ => 1 end.


(** *** Termination of [list(lex)] *)

(** A round of the loop either ends at the end of the input or has
    consumed a character. *)
Lemma read_loop_progress s : forall st tok quoted esc lx q,
  read_loop st tok quoted esc s = Ok (lx, q) ->
  (state lx = St_eof /\ instream lx = "")
  \/ String.length (instream lx) < String.length s.
Proof.
  induction s as [s IH] using string_len_ind.
  intros st tok quoted esc lx q H.
  destruct s as [|c rest].
  - rewrite read_loop_equation_1 in H.
    destruct st; inversion H; subst; simpl; auto.
  - rewrite read_loop_equation_2 in H.
    pose proof (readline_length rest) as Hrl.
    destruct st; cbv zeta in H; repeat split_if_in H;
      try (inversion H; subst; simpl; right; lia);
      (apply IH in H;
       [destruct H as [[_ ->]| H]; right; simpl in *; lia | simpl; lia]).
Qed.

Lemma read_token_progress self tok self' :
  read_token self = Ok (Some tok, self') -> todo self' < todo self.
Proof.
  unfold read_token, todo. intros H.
  destruct (read_loop _ _ _ _ _) as [[lx q]|e] eqn:Hloop; [|discriminate].
  destruct self as [s st tk]; simpl in *.
  assert (Hst : st <> St_eof).
  { intros ->. destruct s; [rewrite read_loop_equation_1 in Hloop
                           |rewrite read_loop_equation_2 in Hloop];
    inversion Hloop; subst; simpl in H; discriminate. }
  apply read_loop_progress in Hloop.
  destruct (negb q && negb (truthy (token lx))); inversion H; subst; simpl.
  destruct Hloop as [[-> ->]|Hlt]; simpl.
  - destruct st; try congruence; lia.
  - destruct st; try congruence; destruct (state lx); lia.
Qed.

(** [list(lex)]: call [__next__] until it raises [StopIteration], that is
    until [get_token] returns [self.eof]. *)
Equations? list_lex (lex : shlex) : res (list string) by wf (todo lex) lt :=
  list_lex lex with inspect (get_token lex) := {
    | exist _ (Raise e) _ => Raise e
    | exist _ (Ok (None, _)) _ => Ok []
    | exist _ (Ok (Some tok, lex')) Hget =>
        match list_lex lex' with
        | Ok toks => Ok (tok :: toks)
        | Raise e => Raise e
        end }.
Proof. eapply read_token_progress. exact Hget. Qed.

(** [shlex.split(s, comments=True)]. *)
Definition split (s : string) : res (list string) :=
  list_lex (Lexer s St_space "").

(** [_find_unsafe]: the pattern [[^\w@%+=:,./-]] with [re.ASCII]; a
    character is safe when it is an ASCII letter or digit, or one of
    [_@%+=:,./-]. *)
Definition is_safe (c : ascii) : bool :=
  let n := nat_of_ascii c in
  (((48 <=? n) && (n <=? 57)) || ((65 <=? n) && (n <=? 90))
   || ((97 <=? n) && (n <=? 122)))%nat || in_str c "_@%+=:,./-".

Fixpoint find_unsafe (s : string) : bool :=
  match s with
  | EmptyString => false
  | String c s' => negb (is_safe c) || find_unsafe s'
  end.

(** [s.replace(old, new)] for a one-character [old]. *)
Fixpoint str_replace (old : ascii) (new : string) (s : string) : string :=
  match s with
  | EmptyString => ""
  | String c s' =>
      (if Ascii.eqb c old then new else String c "")
      +:+ str_replace old new s'
  end.

(** [shlex.quote]. *)
Definition quote (s : string) : string :=
  if negb (truthy s) then "''"
  else if negb (find_unsafe s) then s
  else "'"
       +:+ str_replace squote
             (String squote (String dquote (String squote
               (String dquote (String squote "")))))
             s
       +:+ "'".

(** [' '.join(l)]. *)
Fixpoint str_join (sep : string) (l : list string) : string :=
  match l with
  | [] => ""
  | [x] => x
  | x :: l' => x +:+ sep +:+ str_join sep l'
  end.

(** [shlex.join]. *)
Definition join (split_command : list string) : string :=
  str_join " " (map quote split_command).

End Shlex.

(** ** re: the compiled pattern [ENV_VAR_PATTERN] and [Pattern.sub] *)

Module Re.

(** [\w] of a [str] pattern: a character that [str.isalnum] accepts, or
    the underscore.  Below 256 these are the ASCII letters and digits and
    the letters, superscripts and fractions of Latin-1. *)
Definition is_word (c : ascii) : bool :=
  let n := nat_of_ascii c in
  (((48 <=? n) && (n <=? 57)) || ((65 <=? n) && (n <=? 90)) || (n =? 95)
   || ((97 <=? n) && (n <=? 122))
   || (n =? 170) || (n =? 178) || (n =? 179) || (n =? 181) || (n =? 185)
   || (n =? 186) || ((188 <=? n) && (n <=? 190))
   || ((192 <=? n) && (n <=? 214)) || ((216 <=? n) && (n <=? 246))
   || ((248 <=? n) && (n <=? 255)))%nat.

(** The longest prefix whose characters satisfy [p], and what follows:
    what a greedy [[...]*] consumes. *)
Fixpoint span (p : ascii -> bool) (s : string) : string * string :=
  match s with
  | EmptyString => ("", "")
  | String c s' =>
      if p c then let '(a, b) := span p s' in (String c a, b)
      else ("", s)
  end.

(** A match object: [group(1)], [group(2)], and the text after
    [match.end()]. *)
Record re_match := Match {
  group1 : option string;
  group2 : option string;
  after : string
}.

End Re.
Import Shlex Re.

(** [ENV_VAR_PATTERN = re.compile(r"\$(\w+)|\$\{([^}]+)\}")], matched at
    the start of [s].  The first alternative is a dollar and the longest
    non-empty run of word characters.  The second is tried when the first
    fails: a dollar, an opening brace, the longest non-empty run of
    characters other than the closing brace, and a closing brace; a run
    that reaches the end of the input has no shorter run followed by a
    closing brace, so the alternative fails. *)
Definition ENV_VAR_PATTERN (s : string) : option re_match :=
  match s with
  | String c t =>
      if Ascii.eqb c dollar then
        match span is_word t with
        | (String _ _ as name, t') => Some (Match (Some name) None t')
        | (EmptyString, _) =>
            match t with
            | String c' u =>
                if Ascii.eqb c' lbrace then
                  match span (fun x => negb (Ascii.eqb x rbrace)) u with
                  | (String _ _ as name, String _ u') =>
                      Some (Match None (Some name) u')
                  | _ => None
                  end
                else None
            | EmptyString => None
            end
        end
      else None
  | EmptyString => None
  end.

Lemma span_app p s a b : span p s = (a, b) -> s = a +:+ b.
Proof.
  revert a b. induction s as [|c s IH]; simpl; intros a b H.
  - inversion H; reflexivity.
  - destruct (p c).
    + destruct (span p s) as [a' b']. specialize (IH a' b' eq_refl).
      inversion H; subst. reflexivity.
    + inversion H; reflexivity.
Qed.

Lemma length_app_str a b :
  String.length (a +:+ b) = String.length a + String.length b.
Proof. induction a; simpl; auto. Qed.

(** A match consumes at least the dollar and one more character. *)
Lemma ENV_VAR_PATTERN_after s m :
  ENV_VAR_PATTERN s = Some m -> String.length (after m) + 2 <= String.length s.
Proof.
  unfold ENV_VAR_PATTERN. destruct s as [|c t]; [discriminate|].
  destruct (Ascii.eqb c dollar); [|discriminate].
  destruct (span is_word t) as [[|n0 n] t'] eqn:Hw.
  - destruct t as [|c' u]; [discriminate|].
    destruct (Ascii.eqb c' lbrace); [|discriminate].
    destruct (span _ u) as [[|b0 b] [|r0 u']] eqn:Hb; try discriminate.
    intros H; inversion H; subst; simpl.
    apply span_app in Hb. subst u. rewrite length_app_str. simpl. lia.
  - intros H; inversion H; subst; simpl.
    apply span_app in Hw. subst t. simpl. rewrite length_app_str. lia.
Qed.

Example pattern_bare :
  ENV_VAR_PATTERN "$FOO/x" = Some (Match (Some "FOO") None "/x").
Proof. reflexivity. Qed.

Example pattern_braced :
  ENV_VAR_PATTERN "${a b}c" = Some (Match None (Some "a b") "c").
Proof. reflexivity. Qed.

Example pattern_unclosed : ENV_VAR_PATTERN "${FOO" = None.
Proof. reflexivity. Qed.

(** ** Effects: what the process prints and spawns *)

(** A line on the standard error stream: a message printed by the script,
    or the traceback the interpreter prints for an uncaught exception. *)
Inductive stderr_item :=
| Message (s : string)
| Traceback (e : exn).

(** What the script has done so far: the lines it printed on the standard
    output, what it and the interpreter wrote on the standard error stream,
    and the argument vectors it called [subprocess.run] with.  What the
    child writes on the streams it inherits is not recorded, and an entry
    of [invoked] says that the call was made, not that a child ran. *)
Record io := IO {
  stdout : list string;
  stderr : list stderr_item;
  invoked : list (list string)
}.

Definition io0 : io := IO [] [] [].

Definition M (A : Type) : Type := io -> res A * io.

Definition ret {A} (a : A) : M A := fun s => (Ok a, s).

Definition bind {A B} (m : M A) (k : A -> M B) : M B :=
  fun s => match m s with
           | (Ok a, s') => k a s'
           | (Raise e, s') => (Raise e, s')
           end.

Definition raise {A} (e : exn) : M A := fun s => (Raise e, s).

Definition lift {A} (r : res A) : M A := fun s => (r, s).

(** [try: body  except <handled> as exc: handler]: [handles e] is the
    handler's computation when the [except] clause matches [e]. *)
Definition try_except {A} (body : M A) (handles : exn -> option (M A)) : M A :=
  fun s => match body s with
           | (Ok a, s') => (Ok a, s')
           | (Raise e, s') =>
               match handles e with
               | Some handler => handler s'
               | None => (Raise e, s')
               end
           end.

Notation "'let*' x ':=' m 'in' k" := (bind m (fun x => k))
  (at level 10, x name, m at level 100, k at level 200).
Notation "m ';;' k" := (bind m (fun _ => k))
  (at level 100, k at level 200, right associativity).

(** [print(line)]. *)
Definition print (line : string) : M unit :=
  fun s => (Ok tt, IO (stdout s ++ [line]) (stderr s) (invoked s)).

(** [print(line, file=sys.stderr)]. *)
Definition eprint (line : string) : M unit :=
  fun s => (Ok tt, IO (stdout s) (stderr s ++ [Message line]) (invoked s)).

(** [[f(x) for x in l]]. *)
Fixpoint for_each {A B} (f : A -> M B) (l : list A) : M (list B) :=
  match l with
  | [] => ret []
  | x :: l' => let* y := f x in let* ys := for_each f l' in ret (y :: ys)
  end.

(** ** The world the script runs in *)

Inductive read_failure :=
| Unreadable (e : oserror)
| Undecodable.

(** The process environment, the file system seen through
    [Path.read_text], and the external tool: what spawning an argument
    vector leads to, either a failure to start the child or the return code
    of the child that ran.  The three are given side by side, with no
    link between them: in the process itself the child inherits the
    environment and the tool is looked up through [PATH], so nothing below
    supposes that [child] stays the same when [environ] changes. *)
Record world := World {
  environ : gmap string string;
  read_text : string -> read_failure + string;
  child : list string -> oserror + Z
}.

Module Subprocess.

(** [subprocess.run(cmd, check=check)], reduced to its return code.  The
    vector is recorded when the call is made, before anything is known of
    the child.  The one failure to start is an [OSError]; the [ValueError]
    that the library raises for an argument with a NUL character, before
    any child exists, is outside this embedding. *)
Definition run (w : world) (cmd : list string) (check : bool) : M Z :=
  fun s =>
    let s' := IO (stdout s) (stderr s) (invoked s ++ [cmd]) in
    match child w cmd with
    | inl e => (Raise (OSError e), s')
    | inr returncode =>
        if check && negb (returncode =? 0)%Z
        then (Raise (CalledProcessError returncode cmd), s')
        else (Ok returncode, s')
    end.

End Subprocess.

Module ReSub.

(** [pattern.sub(repl, s)] for [ENV_VAR_PATTERN]: scan [s] from the left;
    where the pattern matches, call [repl] on the match and go on after
    it; elsewhere copy one character. *)
Equations? sub (repl : re_match -> M string) (s : string) : M string
    by wf (String.length s) lt :=
  sub repl EmptyString := ret "";
  sub repl (String c t) with inspect (ENV_VAR_PATTERN (String c t)) := {
    | exist _ (Some m) Hm =>
        let* v := repl m in let* out := sub repl (after m) in ret (v +:+ out)
    | exist _ None _ =>
        let* out := sub repl t in ret (String c out) }.
Proof.
  - pose proof (ENV_VAR_PATTERN_after (String c t) m Hm) as Hlen.
    simpl in Hlen. lia.
Qed.

End ReSub.

(** ** The script *)

(** The namespace [parse_args] returns: the positional [ptb_path], as the
    text that formatting the path gives, and [extra], the remainder of the
    command line. *)
Record Namespace := Args {
  ptb_path : string;
  extra : list string
}.

(** The f-strings of the script. *)
Definition missing_message (name : string) : string :=
  "Missing required environment variable: " +:+ name.

Definition executing (cmd : list string) : string :=
  "Executing: " +:+ Shlex.join cmd.

Definition no_commands (args : Namespace) : string :=
  "No PTB commands found in " +:+ ptb_path args.

(** [a or b] on two groups: [a] when it is a non-empty string, else [b]. *)
Definition group_or (a b : option string) : option string :=
  match a with
  | Some s => if truthy s then a else b
  | None => b
  end.

(** The inner function [replace] of [expand_env]. *)
Definition replace (w : world) (m : re_match) : M string :=
  match group_or (group1 m) (group2 m) with
  | None => raise TypeError
  | Some name =>
      match environ w !! name with
      | None =>
          eprint (missing_message name) ;;
          raise (SystemExit 1)
      | Some value => ret value
      end
  end.

Definition expand_env (w : world) (token : string) : M string :=
  ReSub.sub (replace w) token.

(** [main], from line 54 on: [args] is the namespace that [parse_args]
    returned at line 53.  A run that ends inside [parse_args] (the help
    text, a missing path) is outside this embedding. *)
Definition main (w : world) (args : Namespace) : M Z :=
  let* ptb_source :=
    match read_text w (ptb_path args) with
    | inl (Unreadable e) => raise (OSError e)
    | inl Undecodable => raise UnicodeDecodeError
    | inr text => ret text
    end in
  let* toks := lift (Shlex.split ptb_source) in
  let* tokens := for_each (expand_env w) toks in
  match tokens with
  | [] =>
      eprint (no_commands args) ;;
      ret 1%Z
  | _ :: _ =>
      let cmd := ["sui"; "client"; "ptb"] ++ extra args ++ tokens in
      print (executing cmd) ;;
      try_except
        (Subprocess.run w cmd true ;; ret 0%Z)
        (fun exc =>
           match exc with
           | CalledProcessError returncode _ => Some (ret returncode)
           | _ => None
           end)
  end.

(** What the caller of the process observes of a run whose arguments were
    parsed: the exit status, what the script itself printed, what it and
    the interpreter wrote on the standard error stream, and the argument
    vectors of the calls of [subprocess.run]. *)
Record outcome := Outcome {
  exit_status : Z;
  printed : list string;
  errors : list stderr_item;
  invocations : list (list string)
}.

(** The status a POSIX parent reads for [SystemExit(code)]: the low eight
    bits of the code. *)
Definition status_of (code : Z) : Z := (code mod 256)%Z.

(** [if __name__ == "__main__": raise SystemExit(main())], run by the
    interpreter: [SystemExit] ends the process with its code; any other
    exception that reaches the top is printed as a traceback on the
    standard error stream and the process ends with status 1. *)
Definition run_ptb (w : world) (args : Namespace) : outcome :=
  match main w args io0 with
  | (Ok code, s) | (Raise (SystemExit code), s) =>
      Outcome (status_of code) (stdout s) (stderr s) (invoked s)
  | (Raise e, s) =>
      Outcome 1 (stdout s) (stderr s ++ [Traceback e]) (invoked s)
  end.

(** ** Vocabulary of the specification *)

(** The variables a token refers to: the names of the successive matches of
    [ENV_VAR_PATTERN] in the token, left to right. *)
Equations? references (s : string) : list string by wf (String.length s) lt :=
  references EmptyString := [];
  references (String c t) with inspect (ENV_VAR_PATTERN (String c t)) := {
    | exist _ (Some m) Hm =>
        option_list (group_or (group1 m) (group2 m)) ++ references (after m)
    | exist _ None _ => references t }.
Proof.
  pose proof (ENV_VAR_PATTERN_after (String c t) m Hm) as Hlen.
  simpl in Hlen. lia.
Qed.

(** [name in os.environ]. *)
Definition is_set (w : world) (name : string) : bool :=
  match environ w !! name with
  | Some _ => true
  | None => false
  end.

(** The first variable, in script order, that the tokens refer to and the
    environment lacks. *)
Definition first_missing (w : world) (toks : list string) : option string :=
  List.find (fun name => negb (is_set w name)) (concat (map references toks)).

(** Every character of [s] satisfies [p]. *)
Fixpoint all_chars (p : ascii -> bool) (s : string) : bool :=
  match s with
  | EmptyString => true
  | String c s' => p c && all_chars p s'
  end.

(** A name of the bare form: one or more word characters. *)
Definition bare_name (name : string) : bool :=
  truthy name && all_chars is_word name.

(** A name of the braced form: one or more characters, none a closing
    brace. *)
Definition braced_name (name : string) : bool :=
  truthy name && all_chars (fun c => negb (Ascii.eqb c rbrace)) name.

(** [s] begins with a reference. *)
Definition starts_reference (s : string) : Prop :=
  (exists name rest, bare_name name = true /\ s = "$" +:+ name +:+ rest)
  \/ (exists name rest,
        braced_name name = true /\ s = "${" +:+ name +:+ "}" +:+ rest).

(** [s] does not go on with a word character. *)
Definition word_ends (s : string) : bool :=
  match s with
  | EmptyString => true
  | String c _ => negb (is_word c)
  end.

(** What the specification asks of expansion: each reference, bare (with
    its longest name) or braced, gives way to the value of its name, the
    value is not looked at again, and every other character stays. *)
Inductive expands_to (env : gmap string string) : string -> string -> Prop :=
| expands_end : expands_to env "" ""
| expands_bare name value rest out :
    bare_name name = true -> word_ends rest = true ->
    env !! name = Some value ->
    expands_to env rest out ->
    expands_to env ("$" +:+ name +:+ rest) (value +:+ out)
| expands_braced name value rest out :
    braced_name name = true ->
    env !! name = Some value ->
    expands_to env rest out ->
    expands_to env ("${" +:+ name +:+ "}" +:+ rest) (value +:+ out)
| expands_char c rest out :
    ~ starts_reference (String c rest) ->
    expands_to env rest out ->
    expands_to env (String c rest) (String c out).

(** A script of comments and whitespace only: whitespace characters, and
    comments that run from a hash to the end of their line.  [in_comment]
    says that the reading stands inside a comment. *)
Fixpoint blank_from (in_comment : bool) (s : string) : bool :=
  match s with
  | EmptyString => true
  | String c s' =>
      if in_comment then blank_from (negb (Ascii.eqb c lf)) s'
      else if in_str c whitespace then blank_from false s'
      else if Ascii.eqb c hash then blank_from true s'
      else false
  end.

Definition blank (s : string) : bool := blank_from false s.

(** A character with no lexical role: not whitespace, not a quote, not the
    escape character, not the comment character. *)
Definition plain_char (c : ascii) : bool :=
  negb (in_str c whitespace) && negb (in_str c commenters)
  && negb (in_str c quotes) && negb (in_str c escape).

(** Where a left-to-right reading of a script stands with respect to shell
    quoting: outside quotes, inside single or double quotes, right after a
    backslash (outside quotes or inside double quotes), or inside a
    comment. *)
Inductive quoting :=
| Unquoted
| InSingle
| InDouble
| Escaped
| EscapedInDouble
| InComment.

Definition quoting_step (q : quoting) (c : ascii) : quoting :=
  match q with
  | Unquoted =>
      if Ascii.eqb c squote then InSingle
      else if Ascii.eqb c dquote then InDouble
      else if Ascii.eqb c backslash then Escaped
      else if Ascii.eqb c hash then InComment
      else Unquoted
  | InSingle => if Ascii.eqb c squote then Unquoted else InSingle
  | InDouble =>
      if Ascii.eqb c dquote then Unquoted
      else if Ascii.eqb c backslash then EscapedInDouble
      else InDouble
  | Escaped => Unquoted
  | EscapedInDouble => InDouble
  | InComment => if Ascii.eqb c lf then Unquoted else InComment
  end.

Fixpoint quoting_after (q : quoting) (s : string) : quoting :=
  match s with
  | EmptyString => q
  | String c s' => quoting_after (quoting_step q c) s'
  end.

Definition open_quote (q : quoting) : bool :=
  match q with
  | InSingle | InDouble | EscapedInDouble => true
  | _ => false
  end.

(** The script ends inside a quote that was opened and not closed. *)
Definition unterminated_quote (s : string) : bool :=
  open_quote (quoting_after Unquoted s).

(** ** Vocabulary of the proofs *)

(** The command line of the invocation. *)
Definition argv (args : Namespace) (tokens : list string) : list string :=
  ["sui"; "client"; "ptb"] ++ extra args ++ tokens.

(** The state after one more message on the standard error stream. *)
Definition with_error (s : io) (line : string) : io :=
  IO (stdout s) (stderr s ++ [Message line]) (invoked s).

(** The quoting a state of the lexer stands for. *)
Definition quoting_of (st escapedstate : lstate) : quoting :=
  match st with
  | St_quote q => if Ascii.eqb q squote then InSingle else InDouble
  | St_escape _ =>
      match escapedstate with
      | St_quote _ => EscapedInDouble
      | _ => Escaped
      end
  | _ => Unquoted
  end.

(** The states the loop runs in before the end of the input. *)
Definition running (st escapedstate : lstate) : Prop :=
  match st with
  | St_eof => False
  | St_space | St_word => True
  | St_quote q => q = squote \/ q = dquote
  | St_escape e =>
      e = backslash
      /\ (escapedstate = St_word \/ escapedstate = St_quote dquote)
  end.

(** The loop, started before an open quote that nothing closes: it raises,
    or it breaks with a token, still in front of the open quote. *)
Definition stops_before_open_quote (n : nat) (r : res at_break) : Prop :=
  match r with
  | Raise e => exists msg, e = ValueError msg
  | Ok (lx, quoted) =>
      state lx = St_space
      /\ truthy (token lx) || quoted = true
      /\ open_quote (quoting_after Unquoted (instream lx)) = true
      /\ String.length (instream lx) < n
  end.

(** Inside double quotes the backslash that opened an escape may come
    back into the token with the character it precedes. *)
Definition credit (st escapedstate : lstate) : nat :=
  match st, escapedstate with
  | St_escape _, St_quote _ => 1
  | _, _ => 0
  end.

(** The token the loop breaks with is no longer than [n]. *)
Definition token_within (n : nat) (r : res at_break) : Prop :=
  match r with
  | Ok (lx, _) => String.length (token lx) <= n
  | Raise _ => True
  end.

(** ** Worlds for the examples *)

(** The script of the specification's example: a comment line, then
    [move $SRC $DST] with a trailing comment. *)
Definition example_script : string :=
  "# comment" +:+ String lf "move $SRC $DST  # trailing".

Definition example_args : Namespace := Args "transfer.ptb" ["--dry-run"].

(** A world where both variables are set and the tool exits with 3. *)
Definition example_world : world :=
  World {[ "SRC" := "a.txt"; "DST" := "b.txt" ]}
        (fun _ => inr example_script)
        (fun _ => inr 3%Z).

(** The same script where [DST] is not set. *)
Definition unset_world : world :=
  World {[ "SRC" := "a.txt" ]}
        (fun _ => inr example_script)
        (fun _ => inr 0%Z).

(** The same script where the tool is not installed. *)
Definition toolless_world : world :=
  World {[ "SRC" := "a.txt"; "DST" := "b.txt" ]}
        (fun _ => inr example_script)
        (fun _ => inl FileNotFoundError).

(** A world whose script is [text]. *)
Definition world_of_script (text : string) : world :=
  World {[ "SRC" := "a b" ]} (fun _ => inr text) (fun _ => inr 0%Z).

(** ** Vocabulary of the further properties *)

(** The error a reading that ends in quoting [q] meets: an open quote, or a
    backslash with nothing after it. *)
Definition verdict (q : quoting) : option string :=
  match q with
  | InSingle | InDouble => Some "No closing quotation"
  | Escaped | EscapedInDouble => Some "No escaped character"
  | Unquoted | InComment => None
  end.

(** The message of the error that tokenizing [s] raises, if any. *)
Definition tokenization_error (s : string) : option string :=
  verdict (quoting_after Unquoted s).

(** The loop follows the quoting of its input: it raises the error of the
    verdict [v], or ends at the end of the input when there is none, or
    breaks with a token in front of an input with the same verdict. *)
Definition follows_quoting (n : nat) (v : option string) (r : res at_break)
  : Prop :=
  match r with
  | Raise e => exists msg, v = Some msg /\ e = ValueError msg
  | Ok (lx, quoted) =>
      (state lx = St_eof /\ instream lx = "" /\ v = None)
      \/ (state lx = St_space
          /\ truthy (token lx) || quoted = true
          /\ verdict (quoting_after Unquoted (instream lx)) = v
          /\ String.length (instream lx) < n)
  end.

(** The loop has something to give: a token begun, a quote seen, or a
    quote or an escape under way. *)
Definition committed (st : lstate) (tok : string) (quoted : bool) : Prop :=
  match st with
  | St_quote _ | St_escape _ => True
  | _ => truthy tok || quoted = true
  end.

Definition gives_token (r : res at_break) : Prop :=
  match r with
  | Ok (lx, quoted) => truthy (token lx) || quoted = true
  | Raise _ => True
  end.

(** The pattern matches at no position of [s]. *)
Fixpoint no_match_anywhere (s : string) : bool :=
  match s with
  | EmptyString => true
  | String c t =>
      match ENV_VAR_PATTERN (String c t) with
      | Some _ => false
      | None => no_match_anywhere t
      end
  end.

(** A comment body: characters up to a line feed, which ends it. *)
Fixpoint is_line (s : string) : bool :=
  match s with
  | EmptyString => false
  | String c s' => if Ascii.eqb c lf then negb (truthy s') else is_line s'
  end.

(** What separates two parts of a script: one whitespace character, or a
    comment with the line feed that ends it. *)
Definition separator (sep : string) : bool :=
  match sep with
  | EmptyString => false
  | String c r =>
      if in_str c whitespace then negb (truthy r)
      else Ascii.eqb c hash && is_line r
  end.

(** Between [part] and a quoted string next to it there is a separator,
    or else nothing at all on that side. *)
Definition boundary (sep part : string) : bool :=
  if truthy sep then separator sep else negb (truthy part).

(** The tokens of a first part, then those of a second part. *)
Definition then_tokens (r1 r2 : res (list string)) : res (list string) :=
  match r1 with
  | Raise e => Raise e
  | Ok l1 =>
      match r2 with
      | Raise e => Raise e
      | Ok l2 => Ok (l1 ++ l2)
      end
  end.

(** The content [body] can stand between two quotes [q] as it is: no
    single quote between single quotes; no double quote and no backslash
    between double quotes. *)
Definition verbatim_in (q : ascii) (body : string) : bool :=
  if Ascii.eqb q squote then
    all_chars (fun c => negb (Ascii.eqb c squote)) body
  else if Ascii.eqb q dquote then
    all_chars (fun c => negb (Ascii.eqb c dquote)
                        && negb (Ascii.eqb c backslash)) body
  else false.

(** A word of a script, as the pieces it is written with: text with no
    lexical role, and strings between quotes. *)
Inductive piece : Type :=
| Bare (text : string)
| Quoted (q : ascii) (body : string).

(** A piece as the script has it, and what it stands for. *)
Definition written (p : piece) : string :=
  match p with
  | Bare text => text
  | Quoted q body => String q body +:+ String q ""
  end.

Definition content (p : piece) : string :=
  match p with
  | Bare text => text
  | Quoted _ body => body
  end.

Definition piece_ok (p : piece) : bool :=
  match p with
  | Bare text => all_chars plain_char text
  | Quoted q body => verbatim_in q body
  end.

Definition is_quoted (p : piece) : bool :=
  match p with
  | Bare _ => false
  | Quoted _ _ => true
  end.

Definition word_written (ps : list piece) : string :=
  fold_right (fun p s => written p +:+ s) "" ps.

Definition word_content (ps : list piece) : string :=
  fold_right (fun p s => content p +:+ s) "" ps.

(** The replacement [shlex.quote] writes for a single quote: close the
    quote, a single quote between double quotes, open the quote again. *)
Definition quoted_squote : string :=
  String squote (String dquote (String squote (String dquote
    (String squote "")))).

(** In the state [' '] the lexer holds no token. *)
Definition settled (st : lstate) (tok : string) (quoted : bool) : Prop :=
  st = St_space -> truthy tok || quoted = false.

(** The loop on a first part [s1] alone ([r1]) and on [s1], a separator
    and a second part [s2] ([r12]): they break alike inside [s1], and where
    the first ends with the input, the second gives the pending token or
    goes on with [s2]. *)
Definition composes (n : nat) (sep s2 : string) (r1 r12 : res at_break)
  : Prop :=
  match r1 with
  | Raise _ => False
  | Ok (lx, q) =>
      (state lx = St_space
       /\ truthy (token lx) || q = true
       /\ quoting_after Unquoted (instream lx) = Unquoted
       /\ String.length (instream lx) < n
       /\ r12 = Ok (Lexer (instream lx +:+ sep +:+ s2) St_space (token lx), q))
      \/ (state lx = St_eof
          /\ instream lx = ""
          /\ r12 = if truthy (token lx) || q
                   then Ok (Lexer s2 St_space (token lx), q)
                   else read_loop St_space "" false St_space s2)
  end.

(** * Properties *)

(** ** Unfolding the loops *)

Lemma list_lex_step lex :
  list_lex lex =
  match get_token lex with
  | Raise e => Raise e
  | Ok (None, _) => Ok []
  | Ok (Some tok, lex') =>
      match list_lex lex' with
      | Ok toks => Ok (tok :: toks)
      | Raise e => Raise e
      end
  end.
Proof.
  funelim (list_lex lex);
    match goal with H : get_token _ = _ |- _ => rewrite H end; reflexivity.
Qed.

Lemma sub_step repl c t :
  ReSub.sub repl (String c t) =
  match ENV_VAR_PATTERN (String c t) with
  | Some m =>
      let* v := repl m in
      let* out := ReSub.sub repl (after m) in ret (v +:+ out)
  | None => let* out := ReSub.sub repl t in ret (String c out)
  end.
Proof.
  funelim (ReSub.sub repl (String c t)); try discriminate.
  all: match goal with H : String _ _ = String _ _ |- _ =>
         inversion H; subst end.
  all: match goal with H : ENV_VAR_PATTERN _ = _ |- _ => rewrite H end.
  all: reflexivity.
Qed.

(** ** The lexer on particular shapes of input *)

Lemma str_app_nil (t : string) : "" +:+ t = t.
Proof. reflexivity. Qed.

Lemma str_app_cons c (s t : string) : String c s +:+ t = String c (s +:+ t).
Proof. reflexivity. Qed.

Ltac str_simpl := repeat first [rewrite str_app_cons | rewrite str_app_nil].

Lemma snoc_app tok c t : snoc tok c +:+ t = tok +:+ String c t.
Proof. unfold snoc. induction tok; str_simpl; congruence. Qed.

Lemma app_empty_r (s : string) : s +:+ "" = s.
Proof. induction s; str_simpl; congruence. Qed.

Lemma plain_char_inv c :
  plain_char c = true ->
  in_str c whitespace = false /\ in_str c commenters = false
  /\ in_str c quotes = false /\ in_str c escape = false.
Proof.
  unfold plain_char. intros H.
  repeat (apply andb_prop in H; destruct H as [H ?]).
  repeat split; apply negb_true_iff; assumption.
Qed.

(** At the end of the input the lexer reports the end of the tokens. *)
Lemma get_token_eof : get_token (Lexer "" St_eof "") = Ok (None, Lexer "" St_eof "").
Proof. reflexivity. Qed.

Lemma list_lex_eof : list_lex (Lexer "" St_eof "") = Ok [].
Proof. rewrite list_lex_step, get_token_eof. reflexivity. Qed.

(** Inside a comment, what counts is what follows the line. *)
Lemma blank_from_comment s :
  blank_from true s = blank_from false (snd (readline s)).
Proof.
  induction s as [|c s IH]; simpl; [reflexivity|].
  destruct (Ascii.eqb c lf); simpl; [reflexivity|].
  rewrite IH. destruct (readline s); reflexivity.
Qed.

Lemma read_loop_blank s : forall esc,
  blank s = true ->
  read_loop St_space "" false esc s = Ok (Lexer "" St_eof "", false).
Proof.
  unfold blank. induction s as [s IH] using string_len_ind. intros esc H.
  destruct s as [|c rest]; [reflexivity|].
  rewrite read_loop_equation_2. cbn [blank_from] in H.
  destruct (in_str c whitespace) eqn:Hws.
  - simpl. apply IH; [simpl; lia|exact H].
  - destruct (Ascii.eqb_spec c hash) as [->|Hc]; [|discriminate].
    change (in_str hash commenters) with true. cbv iota.
    rewrite blank_from_comment in H.
    pose proof (readline_length rest).
    apply IH; [simpl; lia|exact H].
Qed.

Lemma split_blank s : blank s = true -> split s = Ok [].
Proof.
  intros H. unfold split. rewrite list_lex_step.
  unfold get_token, read_token. simpl.
  rewrite (read_loop_blank s St_space H). reflexivity.
Qed.

Lemma read_loop_plain t : forall tok quoted esc,
  all_chars plain_char t = true ->
  read_loop St_word tok quoted esc t = Ok (Lexer "" St_eof (tok +:+ t), quoted).
Proof.
  induction t as [|c t IH]; intros tok quoted esc H.
  - rewrite read_loop_equation_1, app_empty_r. reflexivity.
  - simpl in H. apply andb_prop in H. destruct H as [Hc Ht].
    apply plain_char_inv in Hc. destruct Hc as (Hw & Hh & Hq & He).
    rewrite read_loop_equation_2, Hw, Hh, Hq, He, IH, snoc_app by assumption.
    reflexivity.
Qed.

Lemma split_plain t :
  t <> "" -> all_chars plain_char t = true -> split t = Ok [t].
Proof.
  intros Hne H. destruct t as [|c t]; [congruence|].
  simpl in H. apply andb_prop in H. destruct H as [Hc Ht].
  apply plain_char_inv in Hc. destruct Hc as (Hw & Hh & Hq & He).
  unfold split. rewrite list_lex_step. unfold get_token, read_token. simpl.
  rewrite read_loop_equation_2, Hw, Hh, Hq, He.
  assert (Hloop : read_loop St_word (String c "") false St_space t
                  = Ok (Lexer "" St_eof (String c t), false))
    by (rewrite read_loop_plain by assumption; reflexivity).
  destruct (in_str c wordchars); rewrite Hloop; simpl;
    rewrite list_lex_eof; reflexivity.
Qed.

(** Inside single quotes every character up to the closing quote is taken
    as it stands. *)
Lemma read_loop_single_quoted body : forall tok quoted esc rest,
  all_chars (fun c => negb (Ascii.eqb c squote)) body = true ->
  read_loop (St_quote squote) tok quoted esc (body +:+ String squote rest)
  = read_loop St_word (tok +:+ body) true esc rest.
Proof.
  induction body as [|c body IH]; intros tok quoted esc rest H; str_simpl.
  - rewrite read_loop_equation_2, app_empty_r, Ascii.eqb_refl. reflexivity.
  - simpl in H. apply andb_prop in H. destruct H as [Hc Hb].
    apply negb_true_iff in Hc.
    rewrite read_loop_equation_2, Hc.
    change (in_str squote escapedquotes) with false.
    rewrite andb_false_r, IH, snoc_app by assumption. reflexivity.
Qed.

Lemma split_single_quoted body :
  all_chars (fun c => negb (Ascii.eqb c squote)) body = true ->
  split (String squote body +:+ String squote "") = Ok [body].
Proof.
  intros H. unfold split. rewrite list_lex_step.
  unfold get_token, read_token. simpl. str_simpl.
  rewrite read_loop_equation_2. simpl.
  rewrite read_loop_single_quoted by assumption.
  rewrite read_loop_equation_1. simpl.
  rewrite list_lex_eof. reflexivity.
Qed.

(** ** The pattern and the references of a token *)

Lemma references_step c t :
  references (String c t) =
  match ENV_VAR_PATTERN (String c t) with
  | Some m =>
      option_list (group_or (group1 m) (group2 m)) ++ references (after m)
  | None => references t
  end.
Proof.
  funelim (references (String c t)); try discriminate.
  all: match goal with H : String _ _ = String _ _ |- _ =>
         inversion H; subst end.
  all: match goal with H : ENV_VAR_PATTERN _ = _ |- _ => rewrite H end.
  all: reflexivity.
Qed.

Lemma span_spec p s a b :
  span p s = (a, b) ->
  s = a +:+ b /\ all_chars p a = true
  /\ match b with EmptyString => True | String c _ => p c = false end.
Proof.
  revert a b. induction s as [|c s IH]; simpl; intros a b H.
  - inversion H; subst. auto.
  - destruct (p c) eqn:Hc.
    + destruct (span p s) as [a' b']. specialize (IH a' b' eq_refl).
      destruct IH as (-> & Ha & Hb). inversion H; subst. simpl.
      rewrite Hc. auto.
    + inversion H; subst. simpl. auto.
Qed.

Lemma span_all p a r :
  all_chars p a = true ->
  span p (a +:+ r) = (a +:+ fst (span p r), snd (span p r)).
Proof.
  induction a as [|c a IH]; intros H; str_simpl.
  - destruct (span p r); reflexivity.
  - simpl in H. apply andb_prop in H. destruct H as [Hc Ha].
    simpl. rewrite Hc, (IH Ha). reflexivity.
Qed.

Lemma span_stop p c r : p c = false -> span p (String c r) = ("", String c r).
Proof. intros H. simpl. rewrite H. reflexivity. Qed.

(** A match is a reference of one of the two forms, with its name in the
    group of that form. *)
Lemma ENV_VAR_PATTERN_some s m :
  ENV_VAR_PATTERN s = Some m ->
  (exists name, group1 m = Some name /\ group2 m = None
                /\ bare_name name = true /\ word_ends (after m) = true
                /\ s = "$" +:+ name +:+ after m)
  \/ (exists name, group1 m = None /\ group2 m = Some name
                   /\ braced_name name = true
                   /\ s = "${" +:+ name +:+ "}" +:+ after m).
Proof.
  unfold ENV_VAR_PATTERN. destruct s as [|c t]; [discriminate|].
  destruct (Ascii.eqb c dollar) eqn:Hc; [|discriminate].
  apply Ascii.eqb_eq in Hc. subst c.
  destruct (span is_word t) as [[|n0 n] t'] eqn:Hw.
  - destruct t as [|c' u]; [discriminate|].
    destruct (Ascii.eqb c' lbrace) eqn:Hc'; [|discriminate].
    apply Ascii.eqb_eq in Hc'. subst c'.
    destruct (span _ u) as [[|b0 b] [|r0 u']] eqn:Hb; try discriminate.
    intros H; inversion H; subst; simpl. right.
    apply span_spec in Hb. destruct Hb as (-> & Hall & Hr).
    apply negb_false_iff, Ascii.eqb_eq in Hr. subst r0.
    exists (String b0 b). repeat split; auto.
  - intros H; inversion H; subst; simpl. left.
    apply span_spec in Hw. destruct Hw as (-> & Hall & Hr).
    exists (String n0 n). repeat split; auto.
    destruct t' as [|r0 t']; [reflexivity|]. simpl. rewrite Hr. reflexivity.
Qed.

Lemma ENV_VAR_PATTERN_none s :
  ENV_VAR_PATTERN s = None -> ~ starts_reference s.
Proof.
  intros Hnone [(name & rest & Hn & ->)|(name & rest & Hn & ->)];
    apply andb_prop in Hn; destruct Hn as [Hne Hall].
  - unfold ENV_VAR_PATTERN in Hnone. revert Hnone. str_simpl. simpl.
    rewrite (span_all _ _ _ Hall).
    destruct name as [|n0 n]; [discriminate|]. str_simpl. discriminate.
  - unfold ENV_VAR_PATTERN in Hnone. revert Hnone. str_simpl. simpl.
    rewrite (span_all _ _ _ Hall). rewrite span_stop by reflexivity.
    simpl. rewrite app_empty_r.
    destruct name as [|n0 n]; [discriminate|]. discriminate.
Qed.

(** The name [replace] looks up is the name of the reference. *)
Lemma group_or_name s m :
  ENV_VAR_PATTERN s = Some m ->
  exists name, group_or (group1 m) (group2 m) = Some name
               /\ (bare_name name = true /\ word_ends (after m) = true
                   /\ s = "$" +:+ name +:+ after m
                   \/ braced_name name = true
                      /\ s = "${" +:+ name +:+ "}" +:+ after m).
Proof.
  intros H. apply ENV_VAR_PATTERN_some in H.
  destruct H as [(name & -> & -> & Hn & Hw & Hs)|(name & -> & -> & Hn & Hs)];
    exists name; split; auto.
  apply andb_prop in Hn. destruct Hn as [Hne _].
  destruct name; [discriminate|reflexivity].
Qed.

(** ** Expansion of one token and of the token list *)

Lemma bind_ok {A B} (m : M A) (k : A -> M B) s a s' :
  m s = (Ok a, s') -> bind m k s = k a s'.
Proof. unfold bind. intros ->. reflexivity. Qed.

Lemma bind_raise {A B} (m : M A) (k : A -> M B) s e s' :
  m s = (Raise e, s') -> bind m k s = (Raise e, s').
Proof. unfold bind. intros ->. reflexivity. Qed.

Lemma is_set_true w name :
  is_set w name = true -> exists value, environ w !! name = Some value.
Proof. unfold is_set. destruct (environ w !! name); [eauto|discriminate]. Qed.

Lemma is_set_false w name : is_set w name = false -> environ w !! name = None.
Proof. unfold is_set. destruct (environ w !! name); [discriminate|auto]. Qed.

(** What [replace] does on a match whose name is [name]. *)
Lemma replace_set w m name value s :
  group_or (group1 m) (group2 m) = Some name ->
  environ w !! name = Some value ->
  replace w m s = (Ok value, s).
Proof. intros H Hv. unfold replace. rewrite H, Hv. reflexivity. Qed.

Lemma replace_unset w m name s :
  group_or (group1 m) (group2 m) = Some name ->
  environ w !! name = None ->
  replace w m s = (Raise (SystemExit 1), with_error s (missing_message name)).
Proof. intros H Hv. unfold replace. rewrite H, Hv. reflexivity. Qed.

(** One token: either the first missing name stops the expansion with its
    message, or the token expands as the specification describes and
    nothing is printed. *)
Lemma expand_env_spec w tok :
  match List.find (fun name => negb (is_set w name)) (references tok) with
  | Some name =>
      forall s, expand_env w tok s
                = (Raise (SystemExit 1), with_error s (missing_message name))
  | None =>
      exists out, (forall s, expand_env w tok s = (Ok out, s))
                  /\ expands_to (environ w) tok out
  end.
Proof.
  unfold expand_env.
  induction tok as [tok IH] using string_len_ind.
  destruct tok as [|c t].
  - simp references. simpl. exists "". split; [reflexivity|constructor].
  - rewrite references_step.
    destruct (ENV_VAR_PATTERN (String c t)) as [m|] eqn:Hm.
    + pose proof (ENV_VAR_PATTERN_after _ _ Hm) as Hlen.
      destruct (group_or_name _ _ Hm) as (name & Hname & Hshape).
      rewrite Hname. simpl.
      destruct (is_set w name) eqn:Hset; simpl.
      * destruct (is_set_true _ _ Hset) as [value Hv].
        assert (Hlt : String.length (after m) < String.length (String c t))
          by lia.
        specialize (IH (after m) Hlt).
        destruct (List.find _ (references (after m))) as [missing|].
        -- intros s. rewrite sub_step, Hm.
           rewrite (bind_ok _ _ _ _ _ (replace_set _ _ _ _ s Hname Hv)).
           rewrite (bind_raise _ _ _ _ _ (IH s)). reflexivity.
        -- destruct IH as (out & Hout & Hexp).
           exists (value +:+ out). split.
           ++ intros s. rewrite sub_step, Hm.
              rewrite (bind_ok _ _ _ _ _ (replace_set _ _ _ _ s Hname Hv)).
              rewrite (bind_ok _ _ _ _ _ (Hout s)). reflexivity.
           ++ destruct Hshape as [(Hn & Hw & ->)|(Hn & ->)].
              ** apply expands_bare; assumption.
              ** apply expands_braced; assumption.
      * apply is_set_false in Hset. intros s. rewrite sub_step, Hm.
        rewrite (bind_raise _ _ _ _ _ (replace_unset _ _ _ s Hname Hset)).
        reflexivity.
    + assert (Hlt : String.length t < String.length (String c t))
        by (simpl; lia).
      specialize (IH t Hlt).
      destruct (List.find _ (references t)) as [missing|].
      * intros s. rewrite sub_step, Hm.
        rewrite (bind_raise _ _ _ _ _ (IH s)). reflexivity.
      * destruct IH as (out & Hout & Hexp).
        exists (String c out). split.
        -- intros s. rewrite sub_step, Hm.
           rewrite (bind_ok _ _ _ _ _ (Hout s)). reflexivity.
        -- apply expands_char; [|assumption].
           apply ENV_VAR_PATTERN_none. assumption.
Qed.

Lemma find_app {A} (f : A -> bool) (l1 l2 : list A) :
  List.find f (l1 ++ l2) =
  match List.find f l1 with
  | Some x => Some x
  | None => List.find f l2
  end.
Proof.
  induction l1 as [|x l1 IH]; simpl; [reflexivity|].
  destruct (f x); auto.
Qed.

(** The list comprehension: it stops at the first missing variable of the
    script, and otherwise expands token by token, printing nothing. *)
Lemma for_each_expand_spec w toks :
  match first_missing w toks with
  | Some name =>
      forall s, for_each (expand_env w) toks s
                = (Raise (SystemExit 1), with_error s (missing_message name))
  | None =>
      exists tokens,
        (forall s, for_each (expand_env w) toks s = (Ok tokens, s))
        /\ Forall2 (fun tok out => (forall s, expand_env w tok s = (Ok out, s))
                                   /\ expands_to (environ w) tok out)
                   toks tokens
  end.
Proof.
  unfold first_missing.
  induction toks as [|tok toks IH]; simpl.
  - exists []. split; [reflexivity|constructor].
  - rewrite find_app.
    pose proof (expand_env_spec w tok) as Htok.
    destruct (List.find _ (references tok)) as [missing|].
    + intros s. rewrite (bind_raise _ _ _ _ _ (Htok s)). reflexivity.
    + destruct Htok as (out & Hout & Hexp).
      destruct (List.find _ (concat (map references toks))) as [missing|].
      * intros s. rewrite (bind_ok _ _ _ _ _ (Hout s)).
        rewrite (bind_raise _ _ _ _ _ (IH s)). reflexivity.
      * destruct IH as (tokens & Htokens & Hall).
        exists (out :: tokens). split.
        -- intros s. rewrite (bind_ok _ _ _ _ _ (Hout s)).
           rewrite (bind_ok _ _ _ _ _ (Htokens s)). reflexivity.
        -- constructor; auto.
Qed.

(** ** The paths through [main] *)

(** The script cannot be read. *)
Lemma run_ptb_unread w args f :
  read_text w (ptb_path args) = inl f ->
  run_ptb w args =
  Outcome 1 [] [Traceback (match f with
                           | Unreadable e => OSError e
                           | Undecodable => UnicodeDecodeError
                           end)] [].
Proof.
  intros Hread. unfold run_ptb, main. rewrite Hread.
  destruct f; reflexivity.
Qed.

(** From here on the script is read. *)
Lemma main_read w args src :
  read_text w (ptb_path args) = inr src ->
  main w args io0 =
  (let* toks := lift (Shlex.split src) in
   let* tokens := for_each (expand_env w) toks in
   match tokens with
   | [] => eprint (no_commands args) ;; ret 1%Z
   | _ :: _ =>
       let cmd := argv args tokens in
       print (executing cmd) ;;
       try_except
         (Subprocess.run w cmd true ;; ret 0%Z)
         (fun exc =>
            match exc with
            | CalledProcessError returncode _ => Some (ret returncode)
            | _ => None
            end)
   end) io0.
Proof. intros Hread. unfold main. rewrite Hread. reflexivity. Qed.

(** The lexer raises. *)
Lemma run_ptb_lexer_raises w args src msg :
  read_text w (ptb_path args) = inr src ->
  Shlex.split src = Raise (ValueError msg) ->
  run_ptb w args = Outcome 1 [] [Traceback (ValueError msg)] [].
Proof.
  intros Hread Hsplit. unfold run_ptb.
  rewrite (main_read _ _ _ Hread).
  rewrite (bind_raise _ _ io0 (ValueError msg) io0)
    by (unfold lift; rewrite Hsplit; reflexivity).
  reflexivity.
Qed.

(** A variable is missing. *)
Lemma run_ptb_missing w args src toks name :
  read_text w (ptb_path args) = inr src ->
  Shlex.split src = Ok toks ->
  first_missing w toks = Some name ->
  run_ptb w args = Outcome 1 [] [Message (missing_message name)] [].
Proof.
  intros Hread Hsplit Hmiss. unfold run_ptb.
  rewrite (main_read _ _ _ Hread).
  rewrite (bind_ok _ _ io0 toks io0)
    by (unfold lift; rewrite Hsplit; reflexivity).
  pose proof (for_each_expand_spec w toks) as Hexp. rewrite Hmiss in Hexp.
  rewrite (bind_raise _ _ _ _ _ (Hexp io0)). reflexivity.
Qed.

(** Every token expands, and there is none. *)
Lemma run_ptb_empty w args src :
  read_text w (ptb_path args) = inr src ->
  Shlex.split src = Ok [] ->
  run_ptb w args = Outcome 1 [] [Message (no_commands args)] [].
Proof.
  intros Hread Hsplit. unfold run_ptb.
  rewrite (main_read _ _ _ Hread).
  rewrite (bind_ok _ _ io0 [] io0)
    by (unfold lift; rewrite Hsplit; reflexivity).
  reflexivity.
Qed.

(** Every token expands, and there is one at least: the tool is spawned. *)
Lemma run_ptb_invokes w args src toks tokens :
  read_text w (ptb_path args) = inr src ->
  Shlex.split src = Ok toks ->
  (forall s, for_each (expand_env w) toks s = (Ok tokens, s)) ->
  tokens <> [] ->
  run_ptb w args =
  match child w (argv args tokens) with
  | inl e =>
      Outcome 1 [executing (argv args tokens)] [Traceback (OSError e)]
              [argv args tokens]
  | inr returncode =>
      Outcome (status_of returncode) [executing (argv args tokens)] []
              [argv args tokens]
  end.
Proof.
  intros Hread Hsplit Hexp Hne. unfold run_ptb.
  rewrite (main_read _ _ _ Hread).
  rewrite (bind_ok _ _ io0 toks io0)
    by (unfold lift; rewrite Hsplit; reflexivity).
  rewrite (bind_ok _ _ _ _ _ (Hexp io0)).
  destruct tokens as [|t tokens]; [congruence|].
  unfold bind, print, try_except, Subprocess.run. simpl.
  destruct (child w _) as [e|rc]; [reflexivity|].
  destruct (rc =? 0)%Z eqn:Hrc; simpl; [|reflexivity].
  apply Z.eqb_eq in Hrc. subst rc. reflexivity.
Qed.

(** When the tool was spawned, the run went down the last path. *)
Lemma run_ptb_spawned_inv w args cmd :
  invocations (run_ptb w args) = [cmd] ->
  exists src toks tokens,
    read_text w (ptb_path args) = inr src
    /\ Shlex.split src = Ok toks
    /\ (forall s, for_each (expand_env w) toks s = (Ok tokens, s))
    /\ Forall2 (fun tok out => (forall s, expand_env w tok s = (Ok out, s))
                               /\ expands_to (environ w) tok out)
               toks tokens
    /\ tokens <> []
    /\ cmd = argv args tokens.
Proof.
  intros H.
  destruct (read_text w (ptb_path args)) as [f|src] eqn:Hread.
  { rewrite (run_ptb_unread _ _ _ Hread) in H. discriminate. }
  destruct (Shlex.split src) as [toks|e] eqn:Hsplit.
  2:{ unfold run_ptb in H. rewrite (main_read _ _ _ Hread) in H.
      rewrite (bind_raise _ _ io0 e io0) in H
        by (unfold lift; rewrite Hsplit; reflexivity).
      destruct e; discriminate. }
  pose proof (for_each_expand_spec w toks) as Hexp.
  destruct (first_missing w toks) as [name|] eqn:Hmiss.
  { rewrite (run_ptb_missing _ _ _ _ _ Hread Hsplit Hmiss) in H. discriminate. }
  destruct Hexp as (tokens & Htokens & Hall).
  destruct tokens as [|t tokens].
  { inversion Hall; subst.
    rewrite (run_ptb_empty _ _ _ Hread Hsplit) in H. discriminate. }
  assert (Hne : t :: tokens <> []) by discriminate.
  rewrite (run_ptb_invokes _ _ _ _ _ Hread Hsplit Htokens Hne) in H.
  exists src, toks, (t :: tokens). repeat split; auto.
  destruct (child w _); simpl in H; congruence.
Qed.

(** ** Quotes left open *)

Lemma stops_before_open_quote_mono n m r :
  n <= m -> stops_before_open_quote n r -> stops_before_open_quote m r.
Proof.
  intros Hle. destruct r as [[lx q]|e]; simpl; [|auto].
  intros (? & ? & ? & ?). repeat split; auto. lia.
Qed.

Lemma comment_open_quote s :
  open_quote (quoting_after InComment s) = true ->
  open_quote (quoting_after Unquoted (snd (readline s))) = true.
Proof.
  induction s as [|c s IH]; simpl; [discriminate|].
  destruct (Ascii.eqb c lf); simpl; [auto|].
  intros H. specialize (IH H). destruct (readline s). exact IH.
Qed.

Lemma in_whitespace c :
  in_str c whitespace
  = Ascii.eqb c space || (Ascii.eqb c tab || (Ascii.eqb c cr
       || (Ascii.eqb c lf || false))).
Proof. reflexivity. Qed.

Lemma in_commenters c : in_str c commenters = Ascii.eqb c hash || false.
Proof. reflexivity. Qed.

Lemma in_quotes c :
  in_str c quotes = Ascii.eqb c squote || (Ascii.eqb c dquote || false).
Proof. reflexivity. Qed.

Lemma in_escape c : in_str c escape = Ascii.eqb c backslash || false.
Proof. reflexivity. Qed.

Lemma in_escapedquotes c : in_str c escapedquotes = Ascii.eqb c dquote || false.
Proof. reflexivity. Qed.

(** Decide the comparisons of characters in the goal: between two known
    characters by computation, with a character known to differ by the
    hypothesis that says so. *)
Ltac decide_eqb :=
  repeat match goal with
  | |- context [Ascii.eqb ?a ?b] =>
      first
        [ let v := eval vm_compute in (Ascii.eqb a b) in
          lazymatch v with
          | true => change (Ascii.eqb a b) with true
          | false => change (Ascii.eqb a b) with false
          end
        | rewrite (proj2 (Ascii.eqb_neq a b)) by assumption ]
  end.

(** Split on which of the characters with a lexical role [c] is. *)
Ltac lexical_cases c :=
  destruct (Ascii.eqb_spec c squote) as [->|?];
  [|destruct (Ascii.eqb_spec c dquote) as [->|?];
    [|destruct (Ascii.eqb_spec c backslash) as [->|?];
      [|destruct (Ascii.eqb_spec c hash) as [->|?];
        [|destruct (Ascii.eqb_spec c space) as [->|?];
          [|destruct (Ascii.eqb_spec c tab) as [->|?];
            [|destruct (Ascii.eqb_spec c cr) as [->|?];
              [|destruct (Ascii.eqb_spec c lf) as [->|?]]]]]]]].

Ltac known_wordchars :=
  repeat match goal with
  | |- context [in_str ?a wordchars] =>
      let v := eval vm_compute in (in_str a wordchars) in
      lazymatch v with
      | true => change (in_str a wordchars) with true
      | false => change (in_str a wordchars) with false
      end
  end.

Ltac split_ifs :=
  repeat match goal with
  | |- context [if ?b then _ else _] => destruct b eqn:?
  end.

Ltac running_goal :=
  first [ lia
        | assumption
        | match goal with H : _ -> ?G |- ?G => apply H; assumption end
        | simpl; unfold quoting_of; decide_eqb; cbv iota;
          intuition (auto; congruence) ].

Lemma read_loop_open_quote s : forall st tok quoted esc,
  running st esc ->
  open_quote (quoting_after (quoting_of st esc) s) = true ->
  stops_before_open_quote (S (String.length s)) (read_loop st tok quoted esc s).
Proof.
  induction s as [s IH] using string_len_ind.
  intros st tok quoted esc Hrun Hopen.
  destruct s as [|c rest].
  - rewrite read_loop_equation_1. simpl in Hopen.
    destruct st; simpl in *; try contradiction; try discriminate; eauto.
  - rewrite read_loop_equation_2. simpl in Hopen.
    assert (Hrec : forall st' tok' quoted' esc' s',
               String.length s' <= String.length rest ->
               running st' esc' ->
               open_quote (quoting_after (quoting_of st' esc') s') = true ->
               stops_before_open_quote (S (String.length (String c rest)))
                 (read_loop st' tok' quoted' esc' s')).
    { intros st' tok' quoted' esc' s' Hlen Hrun' Hopen'.
      eapply stops_before_open_quote_mono;
        [|apply IH; [simpl; lia|exact Hrun'|exact Hopen']].
      simpl. lia. }
    pose proof (readline_length rest) as Hrl.
    pose proof (comment_open_quote rest) as Hcomment.
    assert (Hbreak : forall tok' quoted' s',
               truthy tok' || quoted' = true ->
               String.length s' <= String.length rest ->
               open_quote (quoting_after Unquoted s') = true ->
               stops_before_open_quote (S (String.length (String c rest)))
                 (Ok (Lexer s' St_space tok', quoted'))).
    { intros tok' quoted' s' Htok Hlen Hopen'. simpl.
      repeat split; auto. lia. }
    destruct st as [| | |q|e]; simpl in Hrun.
    + contradiction.
    + revert Hopen. unfold quoting_of, quoting_step.
      rewrite in_whitespace, in_commenters, in_escape, in_quotes.
      lexical_cases c; decide_eqb; simpl orb; cbv iota; intros Hopen;
        known_wordchars; split_ifs;
        first [ apply Hbreak; solve [auto]
              | apply Hrec; solve [running_goal] ].
    + revert Hopen. unfold quoting_of, quoting_step.
      rewrite in_whitespace, in_commenters, in_escape, in_quotes.
      lexical_cases c; decide_eqb; simpl orb; cbv iota; intros Hopen;
        split_ifs;
        first [ apply Hbreak; solve [auto]
              | apply Hrec; solve [running_goal] ].
    + revert Hopen. unfold quoting_of, quoting_step.
      rewrite in_escape, in_escapedquotes.
      destruct Hrun as [-> | ->];
        lexical_cases c; decide_eqb; simpl orb; simpl andb; cbv iota;
        intros Hopen;
        apply Hrec; solve [running_goal].
    + destruct Hrun as [-> [-> | ->]]; cbv zeta;
        revert Hopen; unfold quoting_of, quoting_step; intros Hopen;
        apply Hrec; solve [running_goal].
Qed.

Lemma list_lex_open_quote s :
  open_quote (quoting_after Unquoted s) = true ->
  exists msg, list_lex (Lexer s St_space "") = Raise (ValueError msg).
Proof.
  induction s as [s IH] using string_len_ind. intros Hopen.
  rewrite list_lex_step. unfold get_token, read_token. simpl.
  pose proof (read_loop_open_quote s St_space "" false St_space I Hopen) as Hloop.
  pose proof (read_loop_progress s St_space "" false St_space) as Hprog.
  destruct (read_loop St_space "" false St_space s) as [[lx q]|e].
  - destruct Hloop as (Hst & Htok & Hopen' & _).
    destruct (Hprog lx q eq_refl) as [[Heof _]|Hlt]; [congruence|].
    destruct (IH _ Hlt Hopen') as [msg Hmsg].
    rewrite Hst.
    assert (Hsome : negb q && negb (truthy (token lx)) = false)
      by (destruct q, (truthy (token lx)); simpl in *; congruence).
    rewrite Hsome, Hmsg. eauto.
  - destruct Hloop as [msg ->]. eauto.
Qed.

Lemma split_open_quote s :
  unterminated_quote s = true ->
  exists msg, split s = Raise (ValueError msg).
Proof. unfold unterminated_quote, split. apply list_lex_open_quote. Qed.

(** ** Tokens that tokenize to themselves *)

Lemma token_within_mono n m r :
  n <= m -> token_within n r -> token_within m r.
Proof. intros Hle. destruct r as [[lx q]|e]; simpl; [lia|auto]. Qed.

Lemma length_snoc tok c : String.length (snoc tok c) = S (String.length tok).
Proof. unfold snoc. rewrite length_app_str. simpl. lia. Qed.

Ltac within_goal :=
  rewrite ?length_snoc; simpl; first [ lia | intuition (auto; congruence) ].

(** The loop never makes a token longer than what it started with plus
    what it read. *)
Lemma read_loop_token_within s : forall st tok quoted esc,
  running st esc ->
  token_within (String.length tok + String.length s + credit st esc)
    (read_loop st tok quoted esc s).
Proof.
  induction s as [s IH] using string_len_ind.
  intros st tok quoted esc Hrun.
  destruct s as [|c rest].
  - rewrite read_loop_equation_1.
    destruct st; simpl in *; try contradiction; auto; lia.
  - rewrite read_loop_equation_2.
    assert (Hrec : forall st' tok' quoted' esc' s',
               String.length s' <= String.length rest ->
               running st' esc' ->
               String.length tok' + credit st' esc'
               <= S (String.length tok + credit st esc) ->
               token_within
                 (String.length tok + String.length (String c rest)
                  + credit st esc)
                 (read_loop st' tok' quoted' esc' s')).
    { intros st' tok' quoted' esc' s' Hlen Hrun' Hle.
      eapply token_within_mono;
        [|apply IH; [simpl; lia|exact Hrun']].
      simpl. lia. }
    pose proof (readline_length rest) as Hrl.
    destruct st as [| | |q|e]; simpl in Hrun.
    + contradiction.
    + rewrite in_whitespace, in_commenters, in_escape, in_quotes.
      lexical_cases c; decide_eqb; simpl orb; cbv iota;
        known_wordchars; split_ifs;
        first [ solve [simpl; lia] | apply Hrec; solve [within_goal] ].
    + rewrite in_whitespace, in_commenters, in_escape, in_quotes.
      lexical_cases c; decide_eqb; simpl orb; cbv iota; split_ifs;
        first [ solve [simpl; lia] | apply Hrec; solve [within_goal] ].
    + rewrite in_escape, in_escapedquotes.
      destruct Hrun as [-> | ->];
        lexical_cases c; decide_eqb; simpl orb; simpl andb; cbv iota;
        apply Hrec; solve [within_goal].
    + destruct Hrun as [-> [-> | ->]]; cbv zeta;
        [change (state_in St_word quotes) with false
        |change (state_in (St_quote dquote) quotes) with true];
        simpl andb; split_ifs;
        apply Hrec; solve [within_goal].
Qed.

(** Plain characters in front of the input go into the token. *)
Lemma read_loop_plain_prefix p : forall tok quoted esc s,
  all_chars plain_char p = true ->
  read_loop St_word tok quoted esc (p +:+ s)
  = read_loop St_word (tok +:+ p) quoted esc s.
Proof.
  induction p as [|c p IH]; intros tok quoted esc s H; str_simpl.
  - rewrite app_empty_r. reflexivity.
  - simpl in H. apply andb_prop in H. destruct H as [Hc Hp].
    apply plain_char_inv in Hc. destruct Hc as (Hw & Hh & Hq & He).
    rewrite read_loop_equation_2, Hw, Hh, Hq, He, IH, snoc_app by assumption.
    reflexivity.
Qed.

(** A character with a lexical role, met outside quotes, does not go into
    the token. *)
Lemma read_loop_lexical_char st tok quoted esc c r :
  st = St_space \/ st = St_word ->
  plain_char c = false ->
  token_within (String.length tok + String.length r)
    (read_loop st tok quoted esc (String c r)).
Proof.
  intros Hst Hc. rewrite read_loop_equation_2.
  pose proof (readline_length r) as Hrl.
  assert (Hrec : forall st' tok' quoted' esc' s',
             String.length s' <= String.length r ->
             running st' esc' ->
             String.length tok' + credit st' esc' <= String.length tok ->
             token_within (String.length tok + String.length r)
               (read_loop st' tok' quoted' esc' s')).
  { intros st' tok' quoted' esc' s' Hlen Hrun Hle.
    eapply token_within_mono; [|apply read_loop_token_within; exact Hrun].
    lia. }
  unfold plain_char in Hc. revert Hc.
  rewrite in_whitespace, in_commenters, in_escape, in_quotes.
  destruct Hst as [-> | ->];
    lexical_cases c; decide_eqb; simpl; try discriminate; intros _;
    known_wordchars; split_ifs;
    first [ solve [simpl; lia] | apply Hrec; solve [within_goal] ].
Qed.

(** A string with a character that is not plain: the plain characters in
    front, the first one that is not, and the rest. *)
Lemma first_lexical_char t :
  all_chars plain_char t = false ->
  exists p c r,
    t = p +:+ String c r /\ all_chars plain_char p = true
    /\ plain_char c = false.
Proof.
  induction t as [|c t IH]; simpl; [discriminate|].
  destruct (plain_char c) eqn:Hc; simpl.
  - intros H. destruct (IH H) as (p & c' & r & -> & Hp & Hc').
    exists (String c p), c', r. simpl. rewrite Hc, Hp. auto.
  - intros _. exists "", c, t. auto.
Qed.

(** The first token of a string with a lexical character is shorter than
    the string. *)
Lemma first_token_shorter t :
  all_chars plain_char t = false ->
  token_within (pred (String.length t))
    (read_loop St_space "" false St_space t).
Proof.
  intros H. destruct (first_lexical_char _ H) as (p & c & r & -> & Hp & Hc).
  rewrite length_app_str. simpl.
  destruct p as [|c0 p]; str_simpl.
  - eapply token_within_mono;
      [|apply read_loop_lexical_char; [left; reflexivity|exact Hc]].
    simpl. lia.
  - simpl in Hp. apply andb_prop in Hp. destruct Hp as [Hc0 Hp].
    apply plain_char_inv in Hc0. destruct Hc0 as (Hw & Hh & Hq & He).
    rewrite read_loop_equation_2, Hw, Hh, Hq, He.
    assert (Hgo : token_within (S (String.length p) + String.length r)
                    (read_loop St_word (String c0 "") false St_space
                       (p +:+ String c r))).
    { rewrite read_loop_plain_prefix by assumption. str_simpl.
      eapply token_within_mono;
        [|apply read_loop_lexical_char; [right; reflexivity|exact Hc]].
      simpl. lia. }
    destruct (in_str c0 wordchars);
      (eapply token_within_mono; [|exact Hgo]); simpl; lia.
Qed.

(** A string that tokenizes to itself is non-empty and plain. *)
Lemma split_fixed_plain t :
  split t = Ok [t] -> t <> "" /\ all_chars plain_char t = true.
Proof.
  intros H. split.
  - intros ->. vm_compute in H. discriminate.
  - destruct (all_chars plain_char t) eqn:Hall; [reflexivity|exfalso].
    pose proof (first_token_shorter _ Hall) as Hshort.
    unfold split in H. rewrite list_lex_step in H.
    unfold get_token, read_token in H. simpl in H.
    destruct (read_loop St_space "" false St_space t) as [[lx q]|e];
      [|discriminate].
    simpl in Hshort.
    assert (Hpos : 0 < String.length t).
    { destruct t; [discriminate|simpl; lia]. }
    destruct (negb q && negb (truthy (token lx))); [discriminate|].
    destruct (list_lex _) as [toks|e]; [|discriminate].
    inversion H as [[Htok Htoks]]. rewrite Htok in Hshort. lia.
Qed.

(** ** Worked examples *)

Example split_example_script :
  Shlex.split example_script = Ok ["move"; "$SRC"; "$DST"].
Proof. reflexivity. Qed.

Example run_example :
  run_ptb example_world example_args =
  Outcome 3
    ["Executing: sui client ptb --dry-run move a.txt b.txt"] []
    [["sui"; "client"; "ptb"; "--dry-run"; "move"; "a.txt"; "b.txt"]].
Proof. reflexivity. Qed.

(** Quoted tokens keep their inner whitespace. *)
Example split_quoted_whitespace :
  Shlex.split (String dquote "hello world" +:+ String dquote " foo")
  = Ok ["hello world"; "foo"].
Proof. reflexivity. Qed.

(** A form feed is not whitespace for the tokenizer: it is a token. *)
Example form_feed_is_a_token :
  Shlex.split (str_of_codes [12]) = Ok [str_of_codes [12]].
Proof. reflexivity. Qed.

(** A hash inside a word starts a comment all the same. *)
Example hash_inside_a_word : Shlex.split "a#b c" = Ok ["a"].
Proof. reflexivity. Qed.

(** A backslash outside quotes protects the quote after it. *)
Example escaped_quote_is_a_character :
  Shlex.split "it\'s" = Ok ["it's"].
Proof. reflexivity. Qed.

(** A substituted value is not expanded again. *)
Example expansion_is_not_recursive :
  expand_env (World {[ "A" := "$B"; "B" := "x" ]} (fun _ => inr "")
                    (fun _ => inr 0%Z)) "${A}/$B" io0
  = (Ok "$B/x", io0).
Proof. reflexivity. Qed.

(** A substituted value with a space stays one argument. *)
Example expansion_is_not_split :
  invocations (run_ptb (world_of_script "copy $SRC") example_args)
  = [["sui"; "client"; "ptb"; "--dry-run"; "copy"; "a b"]].
Proof. reflexivity. Qed.

(** ** Auxiliary facts for the claims *)

Lemma for_each_ok_any w toks s0 tokens s1 :
  for_each (expand_env w) toks s0 = (Ok tokens, s1) ->
  forall s, for_each (expand_env w) toks s = (Ok tokens, s).
Proof.
  intros H. pose proof (for_each_expand_spec w toks) as Hspec.
  destruct (first_missing w toks) as [name|].
  - rewrite Hspec in H. discriminate.
  - destruct Hspec as (tokens' & Htokens & _).
    rewrite Htokens in H. inversion H; subst. exact Htokens.
Qed.

Lemma first_missing_exists w toks tok ref :
  In tok toks -> In ref (references tok) -> environ w !! ref = None ->
  exists name, first_missing w toks = Some name /\ environ w !! name = None.
Proof.
  intros Htok Href Hnone. unfold first_missing.
  destruct (List.find _ _) as [name|] eqn:Hfind.
  - exists name. split; [reflexivity|].
    apply List.find_some in Hfind. destruct Hfind as [_ Hneg].
    apply negb_true_iff in Hneg. apply is_set_false. exact Hneg.
  - exfalso. eapply List.find_none in Hfind.
    + apply negb_false_iff in Hfind. unfold is_set in Hfind.
      rewrite Hnone in Hfind. discriminate.
    + apply in_concat. exists (references tok). split; [|exact Href].
      apply in_map. exact Htok.
Qed.

Lemma all_set_none_missing w (names : list string) :
  forallb (is_set w) names = true ->
  List.find (fun name => negb (is_set w name)) names = None.
Proof.
  induction names as [|n names IH]; simpl; [reflexivity|].
  intros H. apply andb_prop in H. destruct H as [Hn Hrest].
  rewrite Hn. simpl. auto.
Qed.

(** The pattern matches the whole of [$name]. *)
Lemma ENV_VAR_PATTERN_bare name :
  bare_name name = true ->
  ENV_VAR_PATTERN (String dollar name) = Some (Match (Some name) None "").
Proof.
  intros Hname. apply andb_prop in Hname. destruct Hname as [Hne Hall].
  unfold ENV_VAR_PATTERN. rewrite Ascii.eqb_refl.
  rewrite <- (app_empty_r name) at 1. rewrite (span_all _ _ _ Hall).
  simpl. rewrite app_empty_r.
  destruct name as [|n0 n]; [discriminate|]. reflexivity.
Qed.

(** The only reference of [$name] is [name]. *)
Lemma references_bare name :
  bare_name name = true -> references (String dollar name) = [name].
Proof.
  intros Hname. rewrite references_step, (ENV_VAR_PATTERN_bare _ Hname).
  simpl. apply andb_prop in Hname. destruct Hname as [Hne _].
  destruct name; [discriminate|]. simpl. simp references. reflexivity.
Qed.

Lemma expand_env_bare_set w name value :
  bare_name name = true ->
  environ w !! name = Some value ->
  forall s, expand_env w (String dollar name) s = (Ok value, s).
Proof.
  intros Hname Hvalue s. unfold expand_env.
  rewrite sub_step, (ENV_VAR_PATTERN_bare _ Hname).
  assert (Hgroup : group_or (Some name) None = Some name).
  { apply andb_prop in Hname. destruct Hname as [Hne _].
    destruct name; [discriminate|reflexivity]. }
  rewrite (bind_ok _ _ _ _ _ (replace_set w (Match (Some name) None "")
                                 name value s Hgroup Hvalue)).
  simpl. simp sub. unfold bind, ret. rewrite app_empty_r. reflexivity.
Qed.

Lemma word_is_not_squote name :
  all_chars is_word name = true ->
  all_chars (fun c => negb (Ascii.eqb c squote)) name = true.
Proof.
  induction name as [|c name IH]; simpl; [reflexivity|].
  intros H. apply andb_prop in H. destruct H as [Hc Hname].
  rewrite (IH Hname), andb_true_r.
  destruct (Ascii.eqb_spec c squote) as [->|]; [discriminate|reflexivity].
Qed.

(** * The claims of the specification *)

(** C1.  When some token of the script refers, as [$NAME] or [${NAME}], to
    a name the environment lacks, the run stops at the first such name in
    script order: the standard error stream carries the one message that
    names it, nothing else is printed, the exit status is 1 and the
    external tool is not invoked. *)
Theorem C1_missing_variable_fails_fast w args src toks tok ref :
  read_text w (ptb_path args) = inr src ->
  Shlex.split src = Ok toks ->
  In tok toks ->
  In ref (references tok) ->
  environ w !! ref = None ->
  exists name,
    first_missing w toks = Some name
    /\ environ w !! name = None
    /\ run_ptb w args =
       Outcome 1 []
         [Message ("Missing required environment variable: " +:+ name)] [].
Proof.
  intros Hread Hsplit Htok Href Hnone.
  destruct (first_missing_exists _ _ _ _ Htok Href Hnone) as (name & Hfirst & Hname).
  exists name. repeat split; auto.
  apply (run_ptb_missing _ _ _ _ _ Hread Hsplit Hfirst).
Qed.

Lemma C1_witness :
  read_text unset_world (ptb_path example_args) = inr example_script
  /\ Shlex.split example_script = Ok ["move"; "$SRC"; "$DST"]
  /\ exists name,
       first_missing unset_world ["move"; "$SRC"; "$DST"] = Some name
       /\ environ unset_world !! name = None
       /\ run_ptb unset_world example_args =
          Outcome 1 []
            [Message ("Missing required environment variable: " +:+ name)] [].
Proof.
  split; [reflexivity|]. split; [reflexivity|].
  apply (C1_missing_variable_fails_fast unset_world example_args
           example_script ["move"; "$SRC"; "$DST"] "$DST" "DST").
  - reflexivity.
  - reflexivity.
  - simpl. auto.
  - vm_compute. auto.
  - reflexivity.
Defined.

(** C2.  For every list of pass-through arguments and every non-empty list
    of expanded script tokens, the argument vector handed to the external
    tool is the tool name and its two subcommand names, then the
    pass-through arguments in the order supplied, then the expanded tokens
    in script order. *)
Theorem C2_argument_vector w args src toks tokens s :
  read_text w (ptb_path args) = inr src ->
  Shlex.split src = Ok toks ->
  for_each (expand_env w) toks io0 = (Ok tokens, s) ->
  tokens <> [] ->
  invocations (run_ptb w args)
  = [["sui"; "client"; "ptb"] ++ extra args ++ tokens].
Proof.
  intros Hread Hsplit Hexp Hne.
  rewrite (run_ptb_invokes _ _ _ _ _ Hread Hsplit
             (for_each_ok_any _ _ _ _ _ Hexp) Hne).
  destruct (child w _); reflexivity.
Qed.

Lemma C2_witness :
  invocations (run_ptb (world_of_script "a b") example_args)
  = [["sui"; "client"; "ptb"] ++ ["--dry-run"] ++ ["a"; "b"]].
Proof.
  apply (C2_argument_vector (world_of_script "a b") example_args
           "a b" ["a"; "b"] ["a"; "b"] io0).
  - reflexivity.
  - reflexivity.
  - reflexivity.
  - discriminate.
Defined.



(** C4.  A script made of comments and whitespace only (the whitespace of
    the tokenizer: space, tab, carriage return, line feed) yields no token;
    the run prints the message that no command was found on the standard
    error stream, exits with status 1 and does not invoke the external
    tool. *)
Theorem C4_blank_script w args src :
  read_text w (ptb_path args) = inr src ->
  blank src = true ->
  Shlex.split src = Ok []
  /\ run_ptb w args =
     Outcome 1 []
       [Message ("No PTB commands found in " +:+ ptb_path args)] [].
Proof.
  intros Hread Hblank. pose proof (split_blank _ Hblank) as Hsplit.
  split; [exact Hsplit|].
  apply (run_ptb_empty _ _ _ Hread Hsplit).
Qed.

Lemma C4_witness :
  let src := "  # only a comment" +:+ String lf (String tab "# another") in
  Shlex.split src = Ok []
  /\ run_ptb (world_of_script src) example_args =
     Outcome 1 [] [Message "No PTB commands found in transfer.ptb"] [].
Proof.
  intros src.
  apply (C4_blank_script (world_of_script src) example_args src).
  - reflexivity.
  - reflexivity.
Defined.

(** C5.  When every name a token refers to is in the environment, the
    expansion of the token succeeds, prints nothing, and is the token with
    each bare reference (a dollar and the word characters after it) and
    each braced reference (a name without closing brace between [${] and
    the closing brace) replaced, from left to right, by the value of its
    name; the value is inserted as it is and not expanded again, and every
    other character is kept. *)
Theorem C5_expansion w token :
  forallb (is_set w) (references token) = true ->
  exists out,
    (forall s, expand_env w token s = (Ok out, s))
    /\ expands_to (environ w) token out.
Proof.
  intros Hall. pose proof (expand_env_spec w token) as Hspec.
  rewrite (all_set_none_missing _ _ Hall) in Hspec. exact Hspec.
Qed.

Lemma C5_witness :
  exists out,
    (forall s, expand_env example_world "$SRC:${DST}$" s = (Ok out, s))
    /\ expands_to (environ example_world) "$SRC:${DST}$" out.
Proof.
  apply (C5_expansion example_world "$SRC:${DST}$"). reflexivity.
Defined.

(** C6.  When the run reaches the invocation, the script-derived part of
    the argument vector has as many entries as tokenization produced
    tokens, in the same order, and each entry is the expansion of the token
    at its position: expansion works token by token and its result is
    never split again. *)
Theorem C6_tokens_kept_one_to_one w args cmd :
  invocations (run_ptb w args) = [cmd] ->
  exists src toks tokens,
    read_text w (ptb_path args) = inr src
    /\ Shlex.split src = Ok toks
    /\ cmd = ["sui"; "client"; "ptb"] ++ extra args ++ tokens
    /\ length tokens = length toks
    /\ Forall2 (fun tok out => forall s, expand_env w tok s = (Ok out, s))
               toks tokens.
Proof.
  intros Hinv.
  destruct (run_ptb_spawned_inv _ _ _ Hinv)
    as (src & toks & tokens & Hread & Hsplit & Hexp & Hall & Hne & ->).
  exists src, toks, tokens. repeat split; auto.
  - symmetry. eapply Forall2_length. exact Hall.
  - eapply Forall2_impl; [exact Hall|]. simpl. intros tok out [H _]. exact H.
Qed.

Lemma C6_witness :
  exists src toks tokens,
    read_text (world_of_script "copy $SRC") (ptb_path example_args) = inr src
    /\ Shlex.split src = Ok toks
    /\ ["sui"; "client"; "ptb"; "--dry-run"; "copy"; "a b"]
       = ["sui"; "client"; "ptb"] ++ extra example_args ++ tokens
    /\ length tokens = length toks
    /\ Forall2 (fun tok out =>
                  forall s, expand_env (world_of_script "copy $SRC") tok s
                            = (Ok out, s))
               toks tokens.
Proof.
  apply (C6_tokens_kept_one_to_one (world_of_script "copy $SRC") example_args).
  reflexivity.
Defined.

(** C7.  When the external tool cannot be started, the launch error
    reaches the caller: the exit status is 1, which is not the status of a
    clean run, and the traceback of the error is on the standard error
    stream. *)
Theorem C7_launch_failure w args cmd e :
  invocations (run_ptb w args) = [cmd] ->
  child w cmd = inl e ->
  exit_status (run_ptb w args) = 1%Z
  /\ exit_status (run_ptb w args) <> 0%Z
  /\ errors (run_ptb w args) = [Traceback (OSError e)].
Proof.
  intros Hinv Hchild.
  destruct (run_ptb_spawned_inv _ _ _ Hinv)
    as (src & toks & tokens & Hread & Hsplit & Hexp & _ & Hne & ->).
  rewrite (run_ptb_invokes _ _ _ _ _ Hread Hsplit Hexp Hne), Hchild.
  simpl. repeat split. discriminate.
Qed.

Lemma C7_witness :
  exit_status (run_ptb toolless_world example_args) = 1%Z
  /\ exit_status (run_ptb toolless_world example_args) <> 0%Z
  /\ errors (run_ptb toolless_world example_args)
     = [Traceback (OSError FileNotFoundError)].
Proof.
  apply (C7_launch_failure toolless_world example_args
           ["sui"; "client"; "ptb"; "--dry-run"; "move"; "a.txt"; "b.txt"]).
  - reflexivity.
  - reflexivity.
Defined.

(** C8.  A script that ends inside a single or double quote that nothing
    closes makes tokenization raise; the run ends with the traceback of
    that error, a non-zero exit status, and no invocation of the external
    tool. *)
Theorem C8_unterminated_quote w args src :
  read_text w (ptb_path args) = inr src ->
  unterminated_quote src = true ->
  exists msg,
    Shlex.split src = Raise (ValueError msg)
    /\ run_ptb w args = Outcome 1 [] [Traceback (ValueError msg)] []
    /\ exit_status (run_ptb w args) <> 0%Z.
Proof.
  intros Hread Hopen.
  destruct (split_open_quote _ Hopen) as [msg Hsplit].
  exists msg. split; [exact Hsplit|].
  rewrite (run_ptb_lexer_raises _ _ _ _ Hread Hsplit).
  split; [reflexivity|discriminate].
Qed.

Lemma C8_witness :
  exists msg,
    Shlex.split "move 'a b" = Raise (ValueError msg)
    /\ run_ptb (world_of_script "move 'a b") example_args
       = Outcome 1 [] [Traceback (ValueError msg)] []
    /\ exit_status (run_ptb (world_of_script "move 'a b") example_args) <> 0%Z.
Proof.
  apply (C8_unterminated_quote (world_of_script "move 'a b") example_args).
  - reflexivity.
  - reflexivity.
Defined.

(** C9, as stated, fails: a token that came out of quotes can hold
    whitespace, and tokenizing it again splits it. *)
Lemma C9_counterexample :
  ~ (forall s t, Shlex.split s = Ok [t] -> Shlex.split t = Ok [t]).
Proof.
  intros H. specialize (H "'hello world'" "hello world" eq_refl).
  vm_compute in H. discriminate.
Qed.

(** C9, amended.  Re-tokenizing a string yields that string as the one
    token exactly when the string is non-empty and none of its characters
    has a lexical role (no space, tab, carriage return or line feed, no
    single or double quote, no backslash, no hash); so a token of a prior
    tokenization is given back by a second one if and only if it is such a
    string. *)
Theorem C9_fixed_tokens_are_the_plain_ones t :
  Shlex.split t = Ok [t]
  <-> truthy t = true /\ all_chars plain_char t = true.
Proof.
  split.
  - intros H. destruct (split_fixed_plain _ H) as [Hne Hplain].
    split; [|exact Hplain]. destruct t; [congruence|reflexivity].
  - intros [Hne Hplain]. apply split_plain; [|exact Hplain].
    intros ->. discriminate.
Qed.

Lemma C9_witness : Shlex.split "a.txt" = Ok ["a.txt"].
Proof.
  apply (proj2 (C9_fixed_tokens_are_the_plain_ones "a.txt")).
  split; reflexivity.
Defined.

(** The smallest case: the script ['$NAME'] tokenizes to the token
    [$NAME], and the run passes the value of [NAME] to the tool when it is
    set and stops with the missing-variable message when it is not. *)
Lemma single_quoted_reference w args name :
  bare_name name = true ->
  read_text w (ptb_path args) = inr ("'$" +:+ name +:+ "'") ->
  Shlex.split ("'$" +:+ name +:+ "'") = Ok ["$" +:+ name]
  /\ match environ w !! name with
     | Some value =>
         invocations (run_ptb w args)
         = [["sui"; "client"; "ptb"] ++ extra args ++ [value]]
     | None =>
         run_ptb w args =
         Outcome 1 []
           [Message ("Missing required environment variable: " +:+ name)] []
     end.
Proof.
  intros Hname Hread.
  assert (Hsplit : Shlex.split ("'$" +:+ name +:+ "'") = Ok ["$" +:+ name]).
  { apply (split_single_quoted (String dollar name)).
    simpl. apply word_is_not_squote.
    apply andb_prop in Hname. destruct Hname as [_ Hall]. exact Hall. }
  split; [exact Hsplit|].
  destruct (environ w !! name) as [value|] eqn:Hvalue.
  - assert (Hexp : forall s, for_each (expand_env w) ["$" +:+ name] s
                             = (Ok [value], s)).
    { intros s. simpl.
      rewrite (bind_ok _ _ _ _ _ (expand_env_bare_set _ _ _ Hname Hvalue s)).
      reflexivity. }
    assert (Hne : [value] <> []) by discriminate.
    rewrite (run_ptb_invokes _ _ _ _ _ Hread Hsplit Hexp Hne).
    destruct (child w _); reflexivity.
  - apply (run_ptb_missing _ _ _ _ _ Hread Hsplit).
    change (first_missing w ["$" +:+ name])
      with (List.find (fun n => negb (is_set w n))
              (references (String dollar name) ++ [])).
    rewrite (references_bare _ Hname). simpl.
    unfold is_set. rewrite Hvalue. reflexivity.
Qed.

Example single_quoted_reference_set :
  Shlex.split "'$SRC'" = Ok ["$SRC"]
  /\ invocations (run_ptb (world_of_script "'$SRC'") example_args)
     = [["sui"; "client"; "ptb"] ++ ["--dry-run"] ++ ["a b"]].
Proof.
  apply (single_quoted_reference
           (world_of_script "'$SRC'") example_args "SRC").
  - reflexivity.
  - reflexivity.
Qed.

(** * Further properties of the code *)

(** ** How tokenization ends *)

Lemma comment_verdict s :
  verdict (quoting_after InComment s)
  = verdict (quoting_after Unquoted (snd (readline s))).
Proof.
  induction s as [|c s IH]; simpl; [reflexivity|].
  destruct (Ascii.eqb c lf); simpl; [reflexivity|].
  rewrite IH. destruct (readline s). reflexivity.
Qed.

Lemma follows_quoting_mono n m v r :
  n <= m -> follows_quoting n v r -> follows_quoting m v r.
Proof.
  intros Hle. destruct r as [[lx q]|e]; simpl; [|auto].
  intros [H|(? & ? & ? & ?)]; [left; exact H|right].
  repeat split; auto. lia.
Qed.

Ltac quoting_goal :=
  first [ lia
        | assumption
        | simpl; unfold quoting_of; decide_eqb; cbv iota;
          first [ assumption
                | rewrite <- comment_verdict; assumption
                | intuition (auto; congruence) ] ].

Lemma read_loop_follows_quoting s : forall st tok quoted esc v,
  running st esc ->
  verdict (quoting_after (quoting_of st esc) s) = v ->
  follows_quoting (S (String.length s)) v (read_loop st tok quoted esc s).
Proof.
  induction s as [s IH] using string_len_ind.
  intros st tok quoted esc v Hrun Hv.
  destruct s as [|c rest].
  - rewrite read_loop_equation_1. simpl in Hv.
    destruct st as [| | |q|e]; simpl in *; try contradiction; auto.
    + destruct Hrun as [-> | ->]; simpl in Hv; eauto.
    + destruct Hrun as [-> [-> | ->]]; simpl in Hv; eauto.
  - rewrite read_loop_equation_2. simpl in Hv.
    assert (Hrec : forall st' tok' quoted' esc' s',
               String.length s' <= String.length rest ->
               running st' esc' ->
               verdict (quoting_after (quoting_of st' esc') s') = v ->
               follows_quoting (S (String.length (String c rest))) v
                 (read_loop st' tok' quoted' esc' s')).
    { intros st' tok' quoted' esc' s' Hlen Hrun' Hv'.
      eapply follows_quoting_mono;
        [|apply IH; [simpl; lia|exact Hrun'|exact Hv']].
      simpl. lia. }
    pose proof (readline_length rest) as Hrl.
    assert (Hbreak : forall tok' quoted' s',
               truthy tok' || quoted' = true ->
               String.length s' <= String.length rest ->
               verdict (quoting_after Unquoted s') = v ->
               follows_quoting (S (String.length (String c rest))) v
                 (Ok (Lexer s' St_space tok', quoted'))).
    { intros tok' quoted' s' Htok Hlen Hv'. simpl. right.
      repeat split; auto. lia. }
    destruct st as [| | |q|e]; simpl in Hrun.
    + contradiction.
    + revert Hv. unfold quoting_of, quoting_step.
      rewrite in_whitespace, in_commenters, in_escape, in_quotes.
      lexical_cases c; decide_eqb; simpl orb; cbv iota; intros Hv;
        known_wordchars; split_ifs;
        first [ apply Hbreak; solve [quoting_goal]
              | apply Hrec; solve [quoting_goal] ].
    + revert Hv. unfold quoting_of, quoting_step.
      rewrite in_whitespace, in_commenters, in_escape, in_quotes.
      lexical_cases c; decide_eqb; simpl orb; cbv iota; intros Hv;
        split_ifs;
        first [ apply Hbreak; solve [quoting_goal]
              | apply Hrec; solve [quoting_goal] ].
    + revert Hv. unfold quoting_of, quoting_step.
      rewrite in_escape, in_escapedquotes.
      destruct Hrun as [-> | ->];
        lexical_cases c; decide_eqb; simpl orb; simpl andb; cbv iota;
        intros Hv;
        apply Hrec; solve [quoting_goal].
    + destruct Hrun as [-> [-> | ->]]; cbv zeta;
        revert Hv; unfold quoting_of, quoting_step; intros Hv;
        apply Hrec; solve [quoting_goal].
Qed.

Lemma list_lex_verdict s :
  match verdict (quoting_after Unquoted s) with
  | Some msg => list_lex (Lexer s St_space "") = Raise (ValueError msg)
  | None => exists toks, list_lex (Lexer s St_space "") = Ok toks
  end.
Proof.
  induction s as [s IH] using string_len_ind.
  rewrite list_lex_step. unfold get_token, read_token. simpl.
  pose proof (read_loop_follows_quoting s St_space "" false St_space _ I eq_refl)
    as Hloop.
  pose proof (read_loop_progress s St_space "" false St_space) as Hprog.
  destruct (read_loop St_space "" false St_space s) as [[lx q]|e].
  - destruct Hloop as [(Hst & Hin & Hv)|(Hst & Htok & Hv & _)].
    + simpl in Hv. rewrite Hv, Hst, Hin.
      destruct (negb q && negb (truthy (token lx))); [eauto|].
      rewrite list_lex_eof. eauto.
    + destruct (Hprog lx q eq_refl) as [[Heof _]|Hlt]; [congruence|].
      specialize (IH _ Hlt). simpl in Hv. rewrite Hv in IH. rewrite Hst.
      assert (Hsome : negb q && negb (truthy (token lx)) = false)
        by (destruct q, (truthy (token lx)); simpl in *; congruence).
      rewrite Hsome.
      destruct (verdict (quoting_after Unquoted s)) as [msg|].
      * rewrite IH. reflexivity.
      * destruct IH as [toks ->]. eauto.
  - destruct Hloop as (msg & Hv & ->). simpl in Hv. rewrite Hv. reflexivity.
Qed.

Lemma split_verdict s :
  match tokenization_error s with
  | Some msg => split s = Raise (ValueError msg)
  | None => exists toks, split s = Ok toks
  end.
Proof. apply list_lex_verdict. Qed.

(** ** Scripts without commands *)

Lemma truthy_snoc t a : truthy (snoc t a) = true.
Proof. unfold snoc. destruct t; reflexivity. Qed.

Ltac committed_goal :=
  first [ lia
        | assumption
        | discriminate
        | simpl; rewrite ?truthy_snoc, ?Bool.orb_true_r;
          intuition (auto; congruence) ].

Lemma read_loop_committed s : forall st tok quoted esc,
  running st esc ->
  committed st tok quoted ->
  gives_token (read_loop st tok quoted esc s).
Proof.
  induction s as [s IH] using string_len_ind.
  intros st tok quoted esc Hrun Hcom.
  destruct s as [|c rest].
  - rewrite read_loop_equation_1.
    destruct st; simpl in *; try contradiction; auto.
  - rewrite read_loop_equation_2.
    assert (Hrec : forall st' tok' quoted' esc' s',
               String.length s' <= String.length rest ->
               running st' esc' ->
               committed st' tok' quoted' ->
               gives_token (read_loop st' tok' quoted' esc' s')).
    { intros st' tok' quoted' esc' s' Hlen Hrun' Hcom'.
      apply IH; [simpl; lia|exact Hrun'|exact Hcom']. }
    pose proof (readline_length rest) as Hrl.
    destruct st as [| | |q|e]; simpl in Hrun, Hcom.
    + contradiction.
    + rewrite in_whitespace, in_commenters, in_escape, in_quotes.
      lexical_cases c; decide_eqb; simpl orb; cbv iota;
        known_wordchars; split_ifs;
        first [ discriminate
              | solve [simpl; assumption]
              | apply Hrec; solve [committed_goal] ].
    + rewrite in_whitespace, in_commenters, in_escape, in_quotes.
      lexical_cases c; decide_eqb; simpl orb; cbv iota; split_ifs;
        first [ discriminate
              | solve [simpl; assumption]
              | apply Hrec; solve [committed_goal] ].
    + rewrite in_escape, in_escapedquotes.
      destruct Hrun as [-> | ->];
        lexical_cases c; decide_eqb; simpl orb; simpl andb; cbv iota;
        apply Hrec; solve [committed_goal].
    + destruct Hrun as [-> [-> | ->]]; cbv zeta;
        apply Hrec; solve [committed_goal].
Qed.

(** A script that is not blank makes the first round of the lexer give a
    token or raise. *)
Lemma read_loop_not_blank s : forall esc,
  blank s = false ->
  gives_token (read_loop St_space "" false esc s).
Proof.
  unfold blank. induction s as [s IH] using string_len_ind. intros esc H.
  destruct s as [|c rest]; [discriminate|].
  cbn [blank_from] in H. rewrite read_loop_equation_2.
  pose proof (readline_length rest) as Hrl.
  assert (Hcom : forall st' tok' quoted' esc',
             running st' esc' -> committed st' tok' quoted' ->
             gives_token (read_loop st' tok' quoted' esc' rest))
    by (intros; apply read_loop_committed; assumption).
  revert H. rewrite in_whitespace, in_commenters, in_escape, in_quotes.
  lexical_cases c; decide_eqb; simpl orb; cbv iota; intros H;
    known_wordchars; split_ifs; try discriminate;
    first [ apply IH; [simpl; lia|]; first [ exact H
                                          | rewrite <- blank_from_comment; exact H ]
          | apply Hcom; simpl; intuition (auto; congruence) ].
Qed.

Lemma split_empty_blank s : split s = Ok [] -> blank s = true.
Proof.
  intros H. destruct (blank s) eqn:Hblank; [reflexivity|exfalso].
  pose proof (read_loop_not_blank s St_space Hblank) as Hgive.
  unfold split in H. rewrite list_lex_step in H.
  unfold get_token, read_token in H. simpl in H.
  destruct (read_loop St_space "" false St_space s) as [[lx q]|e];
    [|discriminate].
  simpl in Hgive.
  assert (Hsome : negb q && negb (truthy (token lx)) = false)
    by (destruct q, (truthy (token lx)); simpl in *; congruence).
  rewrite Hsome in H. destruct (list_lex _); discriminate.
Qed.

(** ** Tokens the pattern does not match *)

Lemma sub_no_match repl tok :
  no_match_anywhere tok = true ->
  forall s, ReSub.sub repl tok s = (Ok tok, s).
Proof.
  induction tok as [|c t IH]; intros H s.
  - simp sub. reflexivity.
  - cbn [no_match_anywhere] in H. rewrite sub_step.
    destruct (ENV_VAR_PATTERN (String c t)); [discriminate|].
    rewrite (bind_ok _ _ _ _ _ (IH H s)). reflexivity.
Qed.

Lemma no_dollar_no_match tok :
  all_chars (fun c => negb (Ascii.eqb c dollar)) tok = true ->
  no_match_anywhere tok = true.
Proof.
  induction tok as [|c t IH]; [reflexivity|].
  simpl all_chars. intros H. apply andb_prop in H. destruct H as [Hc Ht].
  apply negb_true_iff in Hc. cbn [no_match_anywhere].
  unfold ENV_VAR_PATTERN. rewrite Hc. auto.
Qed.

(** An opening [${] that no closing brace follows is not matched. *)
Lemma unclosed_brace_no_match body :
  all_chars (fun c => negb (Ascii.eqb c rbrace)) body = true ->
  ENV_VAR_PATTERN (String dollar (String lbrace body)) = None.
Proof.
  intros Hbody. unfold ENV_VAR_PATTERN. rewrite Ascii.eqb_refl.
  rewrite span_stop by reflexivity. rewrite Ascii.eqb_refl.
  rewrite <- (app_empty_r body) at 1. rewrite (span_all _ _ _ Hbody).
  simpl. rewrite app_empty_r. destruct body; reflexivity.
Qed.

Lemma all_chars_and p q s :
  all_chars (fun c => p c && q c) s = true ->
  all_chars p s = true /\ all_chars q s = true.
Proof.
  induction s as [|c s IH]; simpl; [auto|].
  intros H. apply andb_prop in H. destruct H as [Hc Hs].
  apply andb_prop in Hc. destruct Hc as [Hp Hq].
  destruct (IH Hs) as [-> ->]. rewrite Hp, Hq. auto.
Qed.

Lemma unclosed_brace_no_match_anywhere pre body :
  all_chars (fun c => negb (Ascii.eqb c dollar)) pre = true ->
  all_chars (fun c => negb (Ascii.eqb c dollar) && negb (Ascii.eqb c rbrace))
    body = true ->
  no_match_anywhere (pre +:+ String dollar (String lbrace body)) = true.
Proof.
  intros Hpre Hbody. apply all_chars_and in Hbody.
  destruct Hbody as [Hnodollar Hnobrace].
  induction pre as [|c pre IH]; str_simpl.
  - cbn [no_match_anywhere].
    rewrite (unclosed_brace_no_match _ Hnobrace).
    change (ENV_VAR_PATTERN (String lbrace body)) with (@None re_match).
    apply no_dollar_no_match. exact Hnodollar.
  - simpl all_chars in Hpre. apply andb_prop in Hpre.
    destruct Hpre as [Hc Hpre]. apply negb_true_iff in Hc.
    cbn [no_match_anywhere]. unfold ENV_VAR_PATTERN at 1. rewrite Hc.
    apply IH. exact Hpre.
Qed.

(** ** The environment is read at the references only *)




(** ** Runs that stop before the tool, and runs that reach it *)

(** The lexer raises nothing but the two errors of the verdict. *)
Lemma split_cases s :
  (exists msg, split s = Raise (ValueError msg))
  \/ (exists toks, split s = Ok toks).
Proof.
  pose proof (split_verdict s) as H.
  destruct (tokenization_error s) as [msg|]; eauto.
Qed.

Lemma run_ptb_cases w args :
  (exit_status (run_ptb w args) = 1%Z
   /\ printed (run_ptb w args) = []
   /\ length (errors (run_ptb w args)) = 1
   /\ invocations (run_ptb w args) = [])
  \/ (exists tokens,
        tokens <> []
        /\ run_ptb w args =
           match child w (argv args tokens) with
           | inl e =>
               Outcome 1 [executing (argv args tokens)]
                       [Traceback (OSError e)] [argv args tokens]
           | inr returncode =>
               Outcome (status_of returncode) [executing (argv args tokens)]
                       [] [argv args tokens]
           end).
Proof.
  destruct (read_text w (ptb_path args)) as [f|src] eqn:Hread.
  { left. rewrite (run_ptb_unread _ _ _ Hread). auto. }
  destruct (split_cases src) as [[msg Hsplit]|[toks Hsplit]].
  { left. rewrite (run_ptb_lexer_raises _ _ _ _ Hread Hsplit). auto. }
  pose proof (for_each_expand_spec w toks) as Hexp.
  destruct (first_missing w toks) as [name|] eqn:Hmiss.
  { left. rewrite (run_ptb_missing _ _ _ _ _ Hread Hsplit Hmiss). auto. }
  destruct Hexp as (tokens & Htokens & Hall).
  destruct tokens as [|t tokens].
  { left. inversion Hall; subst.
    rewrite (run_ptb_empty _ _ _ Hread Hsplit). auto. }
  right. exists (t :: tokens). split; [discriminate|].
  apply (run_ptb_invokes _ _ _ _ _ Hread Hsplit Htokens). discriminate.
Qed.

(** ** Separators *)

(** Outside an escape the loop does not read [escapedstate] before it
    sets it. *)
Lemma read_loop_esc_irrelevant s : forall st tok quoted esc esc',
  (forall e, st <> St_escape e) ->
  read_loop st tok quoted esc s = read_loop st tok quoted esc' s.
Proof.
  induction s as [s IH] using string_len_ind.
  intros st tok quoted esc esc' Hst.
  destruct s as [|c rest].
  - rewrite !read_loop_equation_1. destruct st; reflexivity.
  - rewrite !read_loop_equation_2.
    pose proof (readline_length rest) as Hrl.
    assert (Hrec : forall st' tok' quoted' s',
               String.length s' <= String.length rest ->
               (forall e, st' <> St_escape e) ->
               read_loop st' tok' quoted' esc s'
               = read_loop st' tok' quoted' esc' s').
    { intros st' tok' quoted' s' Hlen Hst'.
      apply IH; [simpl; lia|exact Hst']. }
    destruct st as [| | |q|e]; [reflexivity | | | |exfalso; eapply Hst; eauto];
      split_ifs; try reflexivity; apply Hrec; first [lia|discriminate].
Qed.

Lemma readline_line line s2 :
  is_line line = true -> snd (readline (line +:+ s2)) = s2.
Proof.
  induction line as [|c line IH]; simpl; [discriminate|]. str_simpl.
  simpl. destruct (Ascii.eqb c lf).
  - intros H. apply negb_true_iff in H. destruct line; [reflexivity|discriminate].
  - intros H. specialize (IH H). destruct (readline (line +:+ s2)). exact IH.
Qed.

(** A comment that ends inside [rest] ends at the same place when more
    input follows. *)
Lemma comment_closed rest more :
  quoting_after InComment rest = Unquoted ->
  snd (readline (rest +:+ more)) = snd (readline rest) +:+ more
  /\ quoting_after Unquoted (snd (readline rest)) = Unquoted.
Proof.
  induction rest as [|c rest IH]; simpl; [discriminate|]. str_simpl. simpl.
  destruct (Ascii.eqb c lf); simpl; [auto|].
  intros H. destruct (IH H) as [H1 H2].
  destruct (readline rest), (readline (rest +:+ more)). auto.
Qed.

(** What the loop does at a separator, outside quotes. *)
Lemma read_loop_separator st tok quoted esc sep s2 :
  st = St_space \/ st = St_word ->
  settled st tok quoted ->
  separator sep = true ->
  read_loop st tok quoted esc (sep +:+ s2)
  = if truthy tok || quoted then Ok (Lexer s2 St_space tok, quoted)
    else read_loop St_space tok quoted esc s2.
Proof.
  intros Hst Hset Hsep. destruct sep as [|c r]; [discriminate|].
  unfold separator in Hsep. str_simpl. rewrite read_loop_equation_2.
  destruct (in_str c whitespace) eqn:Hws.
  - apply negb_true_iff in Hsep. destruct r; [|discriminate]. str_simpl.
    destruct Hst as [-> | ->]; reflexivity.
  - apply andb_prop in Hsep. destruct Hsep as [Hc Hline].
    apply Ascii.eqb_eq in Hc. subst c.
    change (in_str hash commenters) with true. cbv iota.
    rewrite (readline_line _ _ Hline).
    destruct Hst as [-> | ->]; [|reflexivity].
    rewrite (Hset eq_refl). reflexivity.
Qed.

Lemma composes_mono n m sep s2 r1 r12 :
  n <= m -> composes n sep s2 r1 r12 -> composes m sep s2 r1 r12.
Proof.
  intros Hle. destruct r1 as [[lx q]|e]; simpl; [|auto].
  intros [(? & ? & ? & ? & ?)|H]; [left|right; exact H].
  repeat split; auto. lia.
Qed.

Ltac composes_goal :=
  first [ lia
        | assumption
        | discriminate
        | simpl; unfold settled, quoting_of; decide_eqb; cbv iota;
          first [ assumption
                | intuition (auto; congruence) ] ].

Lemma read_loop_composes sep s2 s1 : forall st tok quoted esc,
  separator sep = true ->
  running st esc ->
  settled st tok quoted ->
  quoting_after (quoting_of st esc) s1 = Unquoted ->
  composes (S (String.length s1)) sep s2
    (read_loop st tok quoted esc s1)
    (read_loop st tok quoted esc (s1 +:+ sep +:+ s2)).
Proof.
  induction s1 as [s1 IH] using string_len_ind.
  intros st tok quoted esc Hsep Hrun Hset Hq.
  destruct s1 as [|c rest].
  - str_simpl. rewrite read_loop_equation_1. simpl in Hq.
    destruct st as [| | |q|e]; simpl in Hrun; try contradiction.
    + right. repeat split.
      rewrite (read_loop_separator St_space tok quoted esc sep s2)
        by auto.
      simpl. rewrite (Hset eq_refl).
      destruct tok; [|discriminate (Hset eq_refl)].
      destruct quoted; [discriminate (Hset eq_refl)|].
      apply read_loop_esc_irrelevant. discriminate.
    + right. repeat split.
      rewrite (read_loop_separator St_word tok quoted esc sep s2)
        by (auto; discriminate).
      simpl. destruct (truthy tok || quoted) eqn:Hpending; [reflexivity|].
      destruct tok; [|discriminate]. destruct quoted; [discriminate|].
      apply read_loop_esc_irrelevant. discriminate.
    + destruct Hrun as [-> | ->]; discriminate.
    + destruct Hrun as [-> [-> | ->]]; discriminate.
  - str_simpl. rewrite !read_loop_equation_2. simpl in Hq.
    assert (Hrec : forall st' tok' quoted' esc' s',
               String.length s' <= String.length rest ->
               running st' esc' ->
               settled st' tok' quoted' ->
               quoting_after (quoting_of st' esc') s' = Unquoted ->
               composes (S (String.length (String c rest))) sep s2
                 (read_loop st' tok' quoted' esc' s')
                 (read_loop st' tok' quoted' esc' (s' +:+ sep +:+ s2))).
    { intros st' tok' quoted' esc' s' Hlen Hrun' Hset' Hq'.
      eapply composes_mono;
        [|apply IH; [simpl; lia|exact Hsep|exact Hrun'|exact Hset'|exact Hq']].
      simpl. lia. }
    pose proof (readline_length rest) as Hrl.
    assert (Hbreak : forall tok' quoted' s',
               truthy tok' || quoted' = true ->
               String.length s' <= String.length rest ->
               quoting_after Unquoted s' = Unquoted ->
               composes (S (String.length (String c rest))) sep s2
                 (Ok (Lexer s' St_space tok', quoted'))
                 (Ok (Lexer (s' +:+ sep +:+ s2) St_space tok', quoted'))).
    { intros tok' quoted' s' Htok Hlen Hq'. simpl. left.
      repeat split; auto. lia. }
    destruct st as [| | |q|e]; simpl in Hrun.
    + contradiction.
    + revert Hq. unfold quoting_of, quoting_step.
      rewrite in_whitespace, in_commenters, in_escape, in_quotes.
      lexical_cases c; decide_eqb; simpl orb; cbv iota; intros Hq;
        try (destruct (comment_closed rest (sep +:+ s2) Hq) as [Hrl2 Hq2];
             rewrite Hrl2);
        known_wordchars; split_ifs;
        first [ apply Hbreak; solve [composes_goal]
              | apply Hrec; solve [composes_goal] ].
    + revert Hq. unfold quoting_of, quoting_step.
      rewrite in_whitespace, in_commenters, in_escape, in_quotes.
      lexical_cases c; decide_eqb; simpl orb; cbv iota; intros Hq;
        try (destruct (comment_closed rest (sep +:+ s2) Hq) as [Hrl2 Hq2];
             rewrite Hrl2);
        split_ifs;
        first [ apply Hbreak; solve [composes_goal]
              | apply Hrec; solve [composes_goal] ].
    + revert Hq. unfold quoting_of, quoting_step.
      rewrite in_escape, in_escapedquotes.
      destruct Hrun as [-> | ->];
        lexical_cases c; decide_eqb; simpl orb; simpl andb; cbv iota;
        intros Hq;
        apply Hrec; solve [composes_goal].
    + destruct Hrun as [-> [-> | ->]]; cbv zeta;
        revert Hq; unfold quoting_of, quoting_step; intros Hq;
        apply Hrec; solve [composes_goal].
Qed.

Lemma then_tokens_nil r : then_tokens (Ok []) r = r.
Proof. destruct r; reflexivity. Qed.

Lemma then_tokens_cons tok r1 r2 :
  then_tokens (match r1 with
               | Ok toks => Ok (tok :: toks)
               | Raise e => Raise e
               end) r2
  = match then_tokens r1 r2 with
    | Ok toks => Ok (tok :: toks)
    | Raise e => Raise e
    end.
Proof. destruct r1, r2; reflexivity. Qed.

Lemma list_lex_separated sep s2 s1 :
  separator sep = true ->
  quoting_after Unquoted s1 = Unquoted ->
  list_lex (Lexer (s1 +:+ sep +:+ s2) St_space "")
  = then_tokens (list_lex (Lexer s1 St_space ""))
                (list_lex (Lexer s2 St_space "")).
Proof.
  intros Hsep. induction s1 as [s1 IH] using string_len_ind. intros Hq.
  rewrite (list_lex_step (Lexer (s1 +:+ sep +:+ s2) St_space "")).
  rewrite (list_lex_step (Lexer s1 St_space "")).
  unfold get_token, read_token. simpl.
  assert (Hset : settled St_space "" false) by (intros _; reflexivity).
  pose proof (read_loop_composes sep s2 s1 St_space "" false St_space
                Hsep I Hset Hq) as Hloop.
  pose proof (read_loop_progress s1 St_space "" false St_space) as Hprog.
  destruct (read_loop St_space "" false St_space s1) as [[lx q]|e];
    [|contradiction].
  destruct Hloop as [(Hst & Htok & Hq' & _ & ->)|(Hst & Hin & ->)].
  - destruct (Hprog lx q eq_refl) as [[Heof _]|Hlt]; [congruence|].
    assert (Hsome : negb q && negb (truthy (token lx)) = false)
      by (destruct q, (truthy (token lx)); simpl in *; congruence).
    simpl. rewrite Hsome, Hst, (IH _ Hlt Hq').
    symmetry. apply then_tokens_cons.
  - rewrite Hst, Hin.
    destruct (truthy (token lx) || q) eqn:Hpending.
    + assert (Hsome : negb q && negb (truthy (token lx)) = false)
        by (destruct q, (truthy (token lx)); simpl in *; congruence).
      simpl. rewrite Hsome, list_lex_eof. reflexivity.
    + assert (Hnone : negb q && negb (truthy (token lx)) = true)
        by (destruct q, (truthy (token lx)); simpl in *; congruence).
      rewrite Hnone, then_tokens_nil.
      rewrite (list_lex_step (Lexer s2 St_space "")).
      reflexivity.
Qed.

Lemma split_separated s1 sep s2 :
  quoting_after Unquoted s1 = Unquoted ->
  separator sep = true ->
  split (s1 +:+ sep +:+ s2) = then_tokens (split s1) (split s2).
Proof. intros Hq Hsep. apply list_lex_separated; assumption. Qed.

(** ** Quoted strings, and the quoting of [shlex.quote] *)

Lemma read_loop_double_quoted body : forall tok quoted esc rest,
  all_chars (fun c => negb (Ascii.eqb c dquote)
                      && negb (Ascii.eqb c backslash)) body = true ->
  read_loop (St_quote dquote) tok quoted esc (body +:+ String dquote rest)
  = read_loop St_word (tok +:+ body) true esc rest.
Proof.
  induction body as [|c body IH]; intros tok quoted esc rest H; str_simpl.
  - rewrite read_loop_equation_2, app_empty_r, Ascii.eqb_refl. reflexivity.
  - simpl in H. apply andb_prop in H. destruct H as [Hc Hb].
    apply andb_prop in Hc. destruct Hc as [Hd Hbs].
    apply negb_true_iff in Hd. apply negb_true_iff in Hbs.
    rewrite read_loop_equation_2, Hd, in_escape, Hbs. simpl.
    rewrite IH, snoc_app by assumption. reflexivity.
Qed.

Lemma split_quoted q body :
  verbatim_in q body = true ->
  split (String q body +:+ String q "") = Ok [body].
Proof.
  unfold verbatim_in. intros H.
  destruct (Ascii.eqb_spec q squote) as [->|Hq].
  - apply split_single_quoted. exact H.
  - destruct (Ascii.eqb_spec q dquote) as [->|]; [|discriminate].
    unfold split. rewrite list_lex_step.
    unfold get_token, read_token. simpl. str_simpl.
    rewrite read_loop_equation_2. simpl.
    rewrite read_loop_double_quoted by assumption.
    rewrite read_loop_equation_1. simpl.
    rewrite list_lex_eof. reflexivity.
Qed.

Lemma read_loop_quote_body x : forall tok quoted esc rest,
  read_loop (St_quote squote) tok quoted esc
    (str_replace squote quoted_squote x +:+ String squote rest)
  = read_loop St_word (tok +:+ x) true esc rest.
Proof.
  induction x as [|c x IH]; intros tok quoted esc rest.
  - simpl. str_simpl.
    rewrite read_loop_equation_2, app_empty_r, Ascii.eqb_refl. reflexivity.
  - cbn [str_replace]. destruct (Ascii.eqb_spec c squote) as [->|Hc].
    + unfold quoted_squote at 1. str_simpl.
      rewrite read_loop_equation_2, Ascii.eqb_refl.
      rewrite read_loop_equation_2. simpl.
      rewrite read_loop_equation_2. simpl.
      rewrite read_loop_equation_2. simpl.
      rewrite read_loop_equation_2. simpl.
      rewrite IH, snoc_app. reflexivity.
    + str_simpl. rewrite read_loop_equation_2.
      rewrite (proj2 (Ascii.eqb_neq c squote) Hc).
      change (in_str squote escapedquotes) with false.
      rewrite andb_false_r, IH, snoc_app. reflexivity.
Qed.

Lemma quoting_quote_body x : forall rest,
  quoting_after InSingle
    (str_replace squote quoted_squote x +:+ String squote rest)
  = quoting_after Unquoted rest.
Proof.
  induction x as [|c x IH]; intros rest.
  - reflexivity.
  - cbn [str_replace]. destruct (Ascii.eqb_spec c squote) as [->|Hc].
    + unfold quoted_squote at 1. str_simpl. simpl. apply IH.
    + str_simpl. cbn [quoting_after quoting_step].
      rewrite (proj2 (Ascii.eqb_neq c squote) Hc). apply IH.
Qed.

(** A safe character has no lexical role. *)
Lemma is_safe_plain c : is_safe c = true -> plain_char c = true.
Proof.
  unfold plain_char.
  rewrite in_whitespace, in_commenters, in_escape, in_quotes.
  lexical_cases c; try discriminate; intros _; decide_eqb; reflexivity.
Qed.

Lemma all_safe_plain x :
  find_unsafe x = false -> all_chars plain_char x = true.
Proof.
  induction x as [|c x IH]; simpl; [reflexivity|].
  intros H. apply orb_false_elim in H. destruct H as [Hc Hx].
  apply negb_false_iff in Hc. rewrite (is_safe_plain _ Hc), (IH Hx).
  reflexivity.
Qed.

Lemma quoting_plain x :
  all_chars plain_char x = true -> quoting_after Unquoted x = Unquoted.
Proof.
  induction x as [|c x IH]; simpl; [reflexivity|].
  intros H. apply andb_prop in H. destruct H as [Hc Hx].
  unfold plain_char in Hc. revert Hc.
  rewrite in_whitespace, in_commenters, in_escape, in_quotes.
  lexical_cases c; decide_eqb; simpl; try discriminate; intros _; auto.
Qed.

Lemma quote_unfold x :
  quote x =
  if negb (truthy x) then "''"
  else if negb (find_unsafe x) then x
  else String squote (str_replace squote quoted_squote x +:+ String squote "").
Proof. reflexivity. Qed.

Lemma split_quote x : split (quote x) = Ok [x].
Proof.
  rewrite quote_unfold. destruct (truthy x) eqn:Hne; simpl negb; cbv iota.
  2:{ destruct x; [reflexivity|discriminate]. }
  destruct (find_unsafe x) eqn:Hsafe; simpl negb; cbv iota.
  - unfold split. rewrite list_lex_step.
    unfold get_token, read_token. cbn [instream state token].
    rewrite read_loop_equation_2.
    rewrite in_whitespace, in_commenters, in_escape, in_quotes.
    decide_eqb. simpl orb. known_wordchars. cbv iota.
    rewrite read_loop_quote_body, read_loop_equation_1. simpl.
    rewrite list_lex_eof. reflexivity.
  - apply split_plain; [intros ->; discriminate|].
    apply all_safe_plain. exact Hsafe.
Qed.

Lemma quoting_quote x : quoting_after Unquoted (quote x) = Unquoted.
Proof.
  rewrite quote_unfold. destruct (truthy x) eqn:Hne; simpl negb; cbv iota.
  2:{ reflexivity. }
  destruct (find_unsafe x) eqn:Hsafe; simpl negb; cbv iota.
  - cbn [quoting_after]. change (quoting_step Unquoted squote) with InSingle.
    rewrite quoting_quote_body. reflexivity.
  - apply quoting_plain. apply all_safe_plain. exact Hsafe.
Qed.

Lemma split_join cmd : split (join cmd) = Ok cmd.
Proof.
  unfold join. induction cmd as [|x cmd IH]; [reflexivity|].
  destruct cmd as [|y cmd].
  - simpl. apply split_quote.
  - change (str_join " " (map quote (x :: y :: cmd)))
      with (quote x +:+ " " +:+ str_join " " (map quote (y :: cmd))).
    rewrite split_separated by (try apply quoting_quote; reflexivity).
    rewrite split_quote, IH. reflexivity.
Qed.

(** ** Words written with quotes *)

Lemma str_app_assoc (a b c : string) : (a +:+ b) +:+ c = a +:+ b +:+ c.
Proof. induction a; str_simpl; congruence. Qed.

Lemma quoting_after_app a : forall q b,
  quoting_after q (a +:+ b) = quoting_after (quoting_after q a) b.
Proof. induction a as [|c a IH]; intros q b; str_simpl; simpl; auto. Qed.

Lemma quoting_single_body body rest :
  all_chars (fun c => negb (Ascii.eqb c squote)) body = true ->
  quoting_after InSingle (body +:+ String squote rest)
  = quoting_after Unquoted rest.
Proof.
  induction body as [|c body IH]; str_simpl; intros H.
  - reflexivity.
  - simpl in H. apply andb_prop in H. destruct H as [Hc Hb].
    apply negb_true_iff in Hc. cbn [quoting_after quoting_step].
    rewrite Hc. apply IH. exact Hb.
Qed.

Lemma quoting_double_body body rest :
  all_chars (fun c => negb (Ascii.eqb c dquote)
                      && negb (Ascii.eqb c backslash)) body = true ->
  quoting_after InDouble (body +:+ String dquote rest)
  = quoting_after Unquoted rest.
Proof.
  induction body as [|c body IH]; str_simpl; intros H.
  - reflexivity.
  - simpl in H. apply andb_prop in H. destruct H as [Hc Hb].
    apply andb_prop in Hc. destruct Hc as [Hd Hbs].
    apply negb_true_iff in Hd. apply negb_true_iff in Hbs.
    cbn [quoting_after quoting_step]. rewrite Hd, Hbs. apply IH. exact Hb.
Qed.

(** A quoted string leaves the reading outside quotes. *)
Lemma quoting_quoted q body :
  verbatim_in q body = true ->
  quoting_after Unquoted (String q body +:+ String q "") = Unquoted.
Proof.
  unfold verbatim_in. intros H. str_simpl.
  destruct (Ascii.eqb_spec q squote) as [->|Hq].
  - cbn [quoting_after]. change (quoting_step Unquoted squote) with InSingle.
    rewrite quoting_single_body by assumption. reflexivity.
  - destruct (Ascii.eqb_spec q dquote) as [->|]; [|discriminate].
    cbn [quoting_after]. change (quoting_step Unquoted dquote) with InDouble.
    rewrite quoting_double_body by assumption. reflexivity.
Qed.

Lemma word_written_cons p ps :
  word_written (p :: ps) = written p +:+ word_written ps.
Proof. reflexivity. Qed.

Lemma word_content_cons p ps :
  word_content (p :: ps) = content p +:+ word_content ps.
Proof. reflexivity. Qed.

(** So does a word. *)
Lemma quoting_word ps :
  forallb piece_ok ps = true ->
  quoting_after Unquoted (word_written ps) = Unquoted.
Proof.
  induction ps as [|p ps IH]; [reflexivity|]. intros H.
  cbn [forallb] in H. apply andb_prop in H. destruct H as [Hp Hps].
  rewrite word_written_cons, quoting_after_app.
  destruct p as [text|q body]; cbn [piece_ok written] in Hp |- *.
  - rewrite (quoting_plain _ Hp). auto.
  - rewrite (quoting_quoted _ _ Hp). auto.
Qed.

(** The lexer reads a word piece by piece: the quotes go, what they hold
    is added to the token as it stands. *)
Lemma read_loop_word ps : forall tok quoted esc rest,
  forallb piece_ok ps = true ->
  read_loop St_word tok quoted esc (word_written ps +:+ rest)
  = read_loop St_word (tok +:+ word_content ps)
      (quoted || existsb is_quoted ps) esc rest.
Proof.
  induction ps as [|p ps IH]; intros tok quoted esc rest H.
  - cbn [existsb]. change (word_written []) with "".
    change (word_content []) with "".
    rewrite app_empty_r, orb_false_r. reflexivity.
  - cbn [forallb] in H. apply andb_prop in H. destruct H as [Hp Hps].
    rewrite word_written_cons, word_content_cons.
    rewrite str_app_assoc, <- (str_app_assoc tok). cbn [existsb].
    destruct p as [text|q body]; cbn [piece_ok written content is_quoted] in Hp |- *.
    + rewrite (read_loop_plain_prefix _ _ _ _ _ Hp). apply IH. exact Hps.
    + rewrite orb_true_r. str_simpl. unfold verbatim_in in Hp.
      destruct (Ascii.eqb_spec q squote) as [->|Hq].
      * rewrite read_loop_equation_2.
        change (in_str squote whitespace) with false.
        change (in_str squote commenters) with false.
        change (in_str squote quotes) with true. cbv iota.
        rewrite str_app_assoc. str_simpl.
        rewrite (read_loop_single_quoted _ _ _ _ _ Hp).
        rewrite (IH _ _ _ _ Hps). reflexivity.
      * destruct (Ascii.eqb_spec q dquote) as [->|]; [|discriminate].
        rewrite read_loop_equation_2.
        change (in_str dquote whitespace) with false.
        change (in_str dquote commenters) with false.
        change (in_str dquote quotes) with true. cbv iota.
        rewrite str_app_assoc. str_simpl.
        rewrite (read_loop_double_quoted _ _ _ _ _ Hp).
        rewrite (IH _ _ _ _ Hps). reflexivity.
Qed.

(** A word starts with a character without lexical role or with a quote:
    the lexer enters it from between the words as it goes on inside it. *)
Lemma read_loop_enter_word c r esc :
  plain_char c || in_str c quotes = true ->
  read_loop St_space "" false esc (String c r)
  = read_loop St_word "" false esc (String c r).
Proof.
  intros H. rewrite !read_loop_equation_2.
  destruct (plain_char c) eqn:Hp.
  - apply plain_char_inv in Hp. destruct Hp as (Hw & Hh & Hq & He).
    rewrite Hw, Hh, Hq, He. destruct (in_str c wordchars); reflexivity.
  - cbn [orb] in H. rewrite in_quotes in H.
    destruct (Ascii.eqb_spec c squote) as [->|_]; [reflexivity|].
    destruct (Ascii.eqb_spec c dquote) as [->|_]; [reflexivity|discriminate].
Qed.

Lemma word_starts ps :
  forallb piece_ok ps = true ->
  match word_written ps with
  | EmptyString => word_content ps = "" /\ existsb is_quoted ps = false
  | String c _ => plain_char c || in_str c quotes = true
  end.
Proof.
  induction ps as [|p ps IH]; [split; reflexivity|]. intros H.
  cbn [forallb] in H. apply andb_prop in H. destruct H as [Hp Hps].
  specialize (IH Hps). rewrite word_written_cons, word_content_cons.
  cbn [existsb].
  destruct p as [[|c text]|q body];
    cbn [piece_ok written content is_quoted all_chars] in Hp |- *; str_simpl.
  - exact IH.
  - apply andb_prop in Hp. destruct Hp as [Hc _]. rewrite Hc. reflexivity.
  - unfold verbatim_in in Hp.
    destruct (Ascii.eqb_spec q squote) as [->|_]; [reflexivity|].
    destruct (Ascii.eqb_spec q dquote) as [->|_]; [reflexivity|discriminate].
Qed.

Lemma word_not_empty ps :
  word_written ps <> "" ->
  negb (existsb is_quoted ps) && negb (truthy (word_content ps)) = false.
Proof.
  induction ps as [|p ps IH]; [intros H; exfalso; apply H; reflexivity|].
  rewrite word_written_cons, word_content_cons. cbn [existsb].
  destruct p as [[|c text]|q body]; cbn [written content is_quoted];
    str_simpl; intros H.
  - apply IH. exact H.
  - apply andb_false_r.
  - reflexivity.
Qed.

(** A word tokenizes to one token, its content. *)
Lemma split_word ps :
  forallb piece_ok ps = true ->
  word_written ps <> "" ->
  split (word_written ps) = Ok [word_content ps].
Proof.
  intros Hok Hne. pose proof (word_starts ps Hok) as Hstart.
  pose proof (word_not_empty ps Hne) as Hsome.
  pose proof (read_loop_word ps "" false St_space "" Hok) as Hloop.
  rewrite app_empty_r, str_app_nil, read_loop_equation_1 in Hloop.
  cbn [orb] in Hloop.
  unfold split. rewrite list_lex_step. unfold get_token, read_token.
  cbn [state token instream].
  destruct (word_written ps) as [|c r] eqn:Hw; [congruence|].
  rewrite (read_loop_enter_word _ _ _ Hstart), Hloop.
  cbn [token instream state]. rewrite Hsome, list_lex_eof. reflexivity.
Qed.

(** A separator, or nothing, on one side of a part of a script. *)
Lemma split_boundary_right s1 sep s2 :
  quoting_after Unquoted s1 = Unquoted ->
  boundary sep s2 = true ->
  split (s1 +:+ sep +:+ s2) = then_tokens (split s1) (split s2).
Proof.
  intros Hq Hb. unfold boundary in Hb.
  destruct sep as [|c sep]; simpl truthy in Hb; cbv iota in Hb.
  - apply negb_true_iff in Hb. destruct s2; [|discriminate].
    str_simpl. rewrite app_empty_r.
    pose proof (split_verdict s1) as Hv. unfold tokenization_error in Hv.
    rewrite Hq in Hv. destruct Hv as [toks ->].
    change (split "") with (@Ok (list string) []). simpl.
    rewrite List.app_nil_r. reflexivity.
  - apply split_separated; assumption.
Qed.

Lemma split_boundary_left s1 sep s2 :
  quoting_after Unquoted s1 = Unquoted ->
  boundary sep s1 = true ->
  split (s1 +:+ sep +:+ s2) = then_tokens (split s1) (split s2).
Proof.
  intros Hq Hb. unfold boundary in Hb.
  destruct sep as [|c sep]; simpl truthy in Hb; cbv iota in Hb.
  - apply negb_true_iff in Hb. destruct s1; [|discriminate].
    str_simpl. change (split "") with (@Ok (list string) []).
    rewrite then_tokens_nil. reflexivity.
  - apply split_separated; assumption.
Qed.

(** A word between two boundaries is one token, its content, among the
    tokens of what stands before and after it. *)
Lemma split_around_word s1 sep1 ps sep2 s2 :
  quoting_after Unquoted s1 = Unquoted ->
  boundary sep1 s1 = true ->
  boundary sep2 s2 = true ->
  forallb piece_ok ps = true ->
  word_written ps <> "" ->
  split (s1 +:+ sep1 +:+ word_written ps +:+ sep2 +:+ s2)
  = then_tokens (split s1) (then_tokens (Ok [word_content ps]) (split s2)).
Proof.
  intros Hq Hb1 Hb2 Hok Hne.
  rewrite (split_boundary_left s1 sep1 _ Hq Hb1). f_equal.
  rewrite (split_boundary_right _ sep2 s2 (quoting_word _ Hok) Hb2).
  rewrite (split_word _ Hok Hne). reflexivity.
Qed.

(** ** Every token is expanded *)

(** Whatever stood around a token in the script, the run expands it: it
    stops at the first missing variable, or passes on the expansion of
    each token. *)
Lemma run_ptb_expands_every_token w args src toks :
  read_text w (ptb_path args) = inr src ->
  Shlex.split src = Ok toks ->
  match first_missing w toks with
  | Some name =>
      run_ptb w args = Outcome 1 [] [Message (missing_message name)] []
  | None =>
      exists tokens,
        Forall2 (expands_to (environ w)) toks tokens
        /\ (toks <> [] ->
            invocations (run_ptb w args) = [argv args tokens])
  end.
Proof.
  intros Hread Hsplit.
  pose proof (for_each_expand_spec w toks) as Hexp.
  destruct (first_missing w toks) as [name|] eqn:Hmiss.
  - apply (run_ptb_missing _ _ _ _ _ Hread Hsplit Hmiss).
  - destruct Hexp as (tokens & Htokens & Hall).
    exists tokens. split.
    + eapply Forall2_impl; [exact Hall|]. simpl. intros tok out [_ H]. exact H.
    + intros Hne. pose proof (Forall2_length _ _ _ Hall) as Hlen.
      assert (Hne' : tokens <> [])
        by (destruct tokens, toks; simpl in *; congruence).
      rewrite (run_ptb_invokes _ _ _ _ _ Hread Hsplit Htokens Hne').
      destruct (child w _); reflexivity.
Qed.

(** ** Two environments that agree on the references *)



(** ** Worlds for the further examples *)

(** A world where the tool succeeds. *)
Definition succeeding_world : world :=
  World {[ "SRC" := "a.txt"; "DST" := "b.txt" ]}
        (fun _ => inr example_script)
        (fun _ => inr 0%Z).


(** A script with a reference between single quotes inside a word, after
    a first word and before a comment and a second line. *)
Definition quoted_script : string :=
  "transfer" +:+ " "
  +:+ word_written [Bare "--to="; Quoted squote "$SRC and ${SRC}"]
  +:+ ("# note" +:+ String lf "") +:+ "--gas 1".

(** * The tenth claim *)

(** C10.  Quoting does not protect from expansion.  Take any script in
    which a word is written with quotes: pieces of plain text and strings
    between single or double quotes, in any number and order, after a
    first part that ends outside quotes and before a second part, with a
    separator (or nothing at all) on each side.  Tokenization removes the
    quotes and leaves the content of the word as one token among the
    tokens of the two parts, and every one of these tokens is expanded,
    the one that was written with quotes like the others: if a variable
    referred to by a token is missing, the run stops with the message
    naming the first such variable, status 1 and no call of
    [subprocess.run]; otherwise [subprocess.run] is called with the
    expansion of each token, so with the references that stood between
    the quotes replaced by their values. *)
Theorem C10_quoting_does_not_protect w args s1 sep1 word sep2 s2 l2 :
  read_text w (ptb_path args)
  = inr (s1 +:+ sep1 +:+ word_written word +:+ sep2 +:+ s2) ->
  quoting_after Unquoted s1 = Unquoted ->
  boundary sep1 s1 = true ->
  boundary sep2 s2 = true ->
  forallb piece_ok word = true ->
  word_written word <> "" ->
  Shlex.split s2 = Ok l2 ->
  exists l1,
    Shlex.split s1 = Ok l1
    /\ Shlex.split (s1 +:+ sep1 +:+ word_written word +:+ sep2 +:+ s2)
       = Ok (l1 ++ word_content word :: l2)
    /\ match first_missing w (l1 ++ word_content word :: l2) with
       | Some name =>
           run_ptb w args =
           Outcome 1 []
             [Message ("Missing required environment variable: " +:+ name)]
             []
       | None =>
           exists outs1 out outs2,
             Forall2 (expands_to (environ w)) l1 outs1
             /\ expands_to (environ w) (word_content word) out
             /\ Forall2 (expands_to (environ w)) l2 outs2
             /\ invocations (run_ptb w args)
                = [["sui"; "client"; "ptb"] ++ extra args
                   ++ outs1 ++ out :: outs2]
       end.
Proof.
  intros Hread Hq Hb1 Hb2 Hok Hne Hs2.
  pose proof (split_verdict s1) as Hv. unfold tokenization_error in Hv.
  rewrite Hq in Hv. destruct Hv as [l1 Hs1].
  exists l1. split; [exact Hs1|].
  assert (Hsplit :
            Shlex.split (s1 +:+ sep1 +:+ word_written word +:+ sep2 +:+ s2)
            = Ok (l1 ++ word_content word :: l2)).
  { rewrite (split_around_word _ _ _ _ _ Hq Hb1 Hb2 Hok Hne), Hs1, Hs2.
    reflexivity. }
  split; [exact Hsplit|].
  pose proof (run_ptb_expands_every_token _ _ _ _ Hread Hsplit) as Hrun.
  destruct (first_missing w (l1 ++ word_content word :: l2)) as [name|];
    [exact Hrun|].
  destruct Hrun as (tokens & Hall & Hinv).
  apply Forall2_app_inv_l in Hall.
  destruct Hall as (outs1 & rest & H1 & H2 & ->).
  inversion H2 as [|? out ? outs2 Hout Hl2]; subst.
  exists outs1, out, outs2. repeat split; auto.
  apply Hinv. destruct l1; discriminate.
Qed.

Lemma C10_witness :
  exists l1,
    Shlex.split "transfer" = Ok l1
    /\ Shlex.split quoted_script
       = Ok (l1 ++ "--to=$SRC and ${SRC}" :: ["--gas"; "1"])
    /\ match first_missing (world_of_script quoted_script)
               (l1 ++ "--to=$SRC and ${SRC}" :: ["--gas"; "1"]) with
       | Some name =>
           run_ptb (world_of_script quoted_script) example_args =
           Outcome 1 []
             [Message ("Missing required environment variable: " +:+ name)]
             []
       | None =>
           exists outs1 out outs2,
             Forall2 (expands_to {[ "SRC" := "a b" ]}) l1 outs1
             /\ expands_to {[ "SRC" := "a b" ]} "--to=$SRC and ${SRC}" out
             /\ Forall2 (expands_to {[ "SRC" := "a b" ]}) ["--gas"; "1"] outs2
             /\ invocations (run_ptb (world_of_script quoted_script)
                                     example_args)
                = [["sui"; "client"; "ptb"] ++ ["--dry-run"]
                   ++ outs1 ++ out :: outs2]
       end.
Proof.
  apply (C10_quoting_does_not_protect
           (world_of_script quoted_script) example_args
           "transfer" " " [Bare "--to="; Quoted squote "$SRC and ${SRC}"]
           ("# note" +:+ String lf "") "--gas 1" ["--gas"; "1"]).
  - reflexivity.
  - reflexivity.
  - reflexivity.
  - reflexivity.
  - reflexivity.
  - vm_compute. discriminate.
  - reflexivity.
Defined.

(** The run on that script: the references between the quotes are
    replaced, and the word stays one argument. *)
Example quoted_script_run :
  run_ptb (world_of_script quoted_script) example_args
  = Outcome 0
      ["Executing: sui client ptb --dry-run transfer '--to=a b and a b' --gas 1"]
      []
      [["sui"; "client"; "ptb"; "--dry-run"; "transfer"; "--to=a b and a b";
        "--gas"; "1"]].
Proof. vm_compute. reflexivity. Qed.

(** The same between double quotes, with a variable that is not set. *)
Example double_quoted_reference_unset :
  run_ptb (world_of_script
             ("send " +:+ String dquote ("to $DST now" +:+ String dquote "")))
          example_args
  = Outcome 1 [] [Message "Missing required environment variable: DST"] [].
Proof. vm_compute. reflexivity. Qed.

(** * Further properties, stated *)



(** X2.  For a readable script, the run ends with the message that no
    command was found (status 1, nothing else printed, no invocation)
    exactly when the script is made of whitespace and comments only: any
    other script yields a token, an error of tokenization, or a missing
    variable first. *)
Theorem X2_no_commands_iff_blank w args src :
  read_text w (ptb_path args) = inr src ->
  (run_ptb w args = Outcome 1 [] [Message (no_commands args)] []
   <-> blank src = true).
Proof.
  intros Hread. split.
  - intros Hrun.
    destruct (split_cases src) as [[msg Hsplit]|[toks Hsplit]].
    { rewrite (run_ptb_lexer_raises _ _ _ _ Hread Hsplit) in Hrun.
      discriminate. }
    pose proof (for_each_expand_spec w toks) as Hexp.
    destruct (first_missing w toks) as [name|] eqn:Hmiss.
    { rewrite (run_ptb_missing _ _ _ _ _ Hread Hsplit Hmiss) in Hrun.
      inversion Hrun. }
    destruct Hexp as (tokens & Htokens & Hall).
    destruct tokens as [|t tokens].
    + inversion Hall; subst. apply split_empty_blank. exact Hsplit.
    + assert (Hne : t :: tokens <> []) by discriminate.
      rewrite (run_ptb_invokes _ _ _ _ _ Hread Hsplit Htokens Hne) in Hrun.
      destruct (child w _); discriminate.
  - intros Hblank. apply (run_ptb_empty _ _ _ Hread).
    apply split_blank. exact Hblank.
Qed.

Lemma X2_witness :
  run_ptb (world_of_script "# nothing to do") example_args
  = Outcome 1 [] [Message (no_commands example_args)] [].
Proof.
  apply (proj2 (X2_no_commands_iff_blank
                  (world_of_script "# nothing to do") example_args
                  "# nothing to do" eq_refl)).
  reflexivity.
Defined.

(** X3.  A separator outside quotes cuts the script in two independent
    parts: when a first part ends outside quotes, escapes and comments, and
    is followed by one whitespace character or by a comment up to its line
    feed, the tokens of the whole are the tokens of the first part followed
    by the tokens of the rest (and the error of the rest, if it has
    one). *)
Theorem X3_separator_composes s1 sep s2 :
  quoting_after Unquoted s1 = Unquoted ->
  separator sep = true ->
  Shlex.split (s1 +:+ sep +:+ s2)
  = then_tokens (Shlex.split s1) (Shlex.split s2).
Proof. apply split_separated. Qed.

Lemma X3_witness :
  Shlex.split ("move 'a b'" +:+ ("# why" +:+ String lf "") +:+ "c d")
  = then_tokens (Shlex.split "move 'a b'") (Shlex.split "c d").
Proof.
  apply (X3_separator_composes "move 'a b'" ("# why" +:+ String lf "") "c d").
  - reflexivity.
  - reflexivity.
Defined.

(** X4.  Quotes keep their content as one token: a string between single
    quotes that holds no single quote, or between double quotes that holds
    neither a double quote nor a backslash, tokenizes to exactly that
    string, be it empty or full of whitespace and hashes. *)
Theorem X4_quoted_content_is_one_token q body :
  verbatim_in q body = true ->
  Shlex.split (String q body +:+ String q "") = Ok [body].
Proof. apply split_quoted. Qed.

Lemma X4_witness :
  Shlex.split (String dquote "a # b" +:+ String dquote "") = Ok ["a # b"].
Proof.
  apply (X4_quoted_content_is_one_token dquote "a # b"). reflexivity.
Defined.

(** X5.  Joining and splitting are inverse: for every argument vector, the
    command line that [shlex.join] builds tokenizes, under the rules the
    script applies to its input, to exactly that vector. *)
Theorem X5_join_then_split cmd : Shlex.split (Shlex.join cmd) = Ok cmd.
Proof. apply split_join. Qed.

(** X6.  When the tool is invoked, the standard output carries exactly one
    line, [Executing: ] followed by a command line that tokenizes back to
    the argument vector of the invocation. *)
Theorem X6_printed_command_line w args cmd :
  invocations (run_ptb w args) = [cmd] ->
  exists line,
    printed (run_ptb w args) = ["Executing: " +:+ line]
    /\ Shlex.split line = Ok cmd.
Proof.
  intros Hinv.
  destruct (run_ptb_spawned_inv _ _ _ Hinv)
    as (src & toks & tokens & Hread & Hsplit & Hexp & _ & Hne & ->).
  exists (Shlex.join (argv args tokens)). split; [|apply split_join].
  rewrite (run_ptb_invokes _ _ _ _ _ Hread Hsplit Hexp Hne).
  destruct (child w _); reflexivity.
Qed.

Lemma X6_witness :
  exists line,
    printed (run_ptb (world_of_script "copy $SRC") example_args)
    = ["Executing: " +:+ line]
    /\ Shlex.split line
       = Ok ["sui"; "client"; "ptb"; "--dry-run"; "copy"; "a b"].
Proof.
  apply (X6_printed_command_line (world_of_script "copy $SRC") example_args).
  reflexivity.
Defined.



(** X8.  For a script that was read, the exit status is 0 only when
    [subprocess.run] was called, the child was launched and returned a
    code whose status is 0, and neither the script nor the interpreter
    wrote anything on the standard error stream. *)
Theorem X8_success_means_the_child_returned_zero w args src :
  read_text w (ptb_path args) = inr src ->
  exit_status (run_ptb w args) = 0%Z ->
  exists cmd returncode,
    invocations (run_ptb w args) = [cmd]
    /\ child w cmd = inr returncode
    /\ status_of returncode = 0%Z
    /\ errors (run_ptb w args) = [].
Proof.
  intros _ Hzero.
  destruct (run_ptb_cases w args)
    as [(Hexit & _)|(tokens & Hne & Hrun)]; [congruence|].
  rewrite Hrun in *.
  destruct (child w (argv args tokens)) as [e|rc] eqn:Hchild;
    simpl in *; [discriminate|].
  exists (argv args tokens), rc. auto.
Qed.

Lemma X8_witness :
  exists cmd returncode,
    invocations (run_ptb succeeding_world example_args) = [cmd]
    /\ child succeeding_world cmd = inr returncode
    /\ status_of returncode = 0%Z
    /\ errors (run_ptb succeeding_world example_args) = [].
Proof.
  apply (X8_success_means_the_child_returned_zero
           succeeding_world example_args example_script).
  - reflexivity.
  - reflexivity.
Defined.

(** X9.  A token without a dollar is expanded to itself, in every
    environment, and nothing is printed. *)
Theorem X9_no_dollar_no_change w token s :
  all_chars (fun c => negb (Ascii.eqb c dollar)) token = true ->
  expand_env w token s = (Ok token, s).
Proof.
  intros H. apply sub_no_match. apply no_dollar_no_match. exact H.
Qed.

Lemma X9_witness :
  expand_env unset_world "--gas-budget=100" io0 = (Ok "--gas-budget=100", io0).
Proof.
  apply (X9_no_dollar_no_change unset_world "--gas-budget=100" io0).
  reflexivity.
Defined.

(** X10.  An opening [${] that no closing brace follows is not a
    reference: a token made of text without dollar, then [${], then text
    without dollar and without closing brace, is expanded to itself, and
    no variable is reported missing, whatever the environment. *)
Theorem X10_unclosed_brace_is_kept w pre body s :
  all_chars (fun c => negb (Ascii.eqb c dollar)) pre = true ->
  all_chars (fun c => negb (Ascii.eqb c dollar) && negb (Ascii.eqb c rbrace))
    body = true ->
  expand_env w (pre +:+ "${" +:+ body) s = (Ok (pre +:+ "${" +:+ body), s).
Proof.
  intros Hpre Hbody. apply sub_no_match.
  apply (unclosed_brace_no_match_anywhere pre body Hpre Hbody).
Qed.

Lemma X10_witness :
  expand_env unset_world ("to=" +:+ "${" +:+ "DST") io0
  = (Ok ("to=" +:+ "${" +:+ "DST"), io0).
Proof.
  apply (X10_unclosed_brace_is_kept unset_world "to=" "DST" io0).
  - reflexivity.
  - reflexivity.
Defined.



(** X12.  Expanding a token raises nothing but [SystemExit(1)], and only
    for a variable that the token refers to and the environment lacks,
    after printing the one message that names it: the name taken from the
    match is always a name, never [None]. *)
Theorem X12_expansion_fails_only_for_a_missing_variable w token s e s' :
  expand_env w token s = (Raise e, s') ->
  e = SystemExit 1
  /\ exists name,
       In name (references token)
       /\ environ w !! name = None
       /\ s' = with_error s (missing_message name).
Proof.
  intros H. pose proof (expand_env_spec w token) as Hspec.
  destruct (List.find _ (references token)) as [name|] eqn:Hfind.
  - rewrite Hspec in H. inversion H; subst. split; [reflexivity|].
    apply List.find_some in Hfind. destruct Hfind as [Hin Hneg].
    apply negb_true_iff in Hneg. exists name. repeat split; auto.
    apply is_set_false. exact Hneg.
  - destruct Hspec as (out & Hout & _). rewrite Hout in H. discriminate.
Qed.

Lemma X12_witness :
  SystemExit 1 = SystemExit 1
  /\ exists name,
       In name (references "${DST}/x")
       /\ environ unset_world !! name = None
       /\ with_error io0 (missing_message "DST")
          = with_error io0 (missing_message name).
Proof.
  apply (X12_expansion_fails_only_for_a_missing_variable
           unset_world "${DST}/x" io0).
  reflexivity.
Defined.


